(** * A shallow embedding of DirectoryWatcher (DirectoryWatcher.h / DirectoryWatcher.cpp)

    The watcher is modelled as explicit state passing.  C++ [assert] failures
    and undefined behaviour that the code relies on not happening (division
    by zero, use of freed memory, a write outside an array) are modelled by the [Abort] outcome of a
    small error monad.  Pointers and handles are [Z]; the heap of watch
    requests is a [gmap] from pointer to record.  Signed 32-bit fields are
    modelled as unbounded [Z]: the first signed overflow of the queue
    counters needs more than 2^30 queued records of 840 bytes each. *)

From Stdlib Require Import ZArith List Bool Lia.
From stdpp Require Import base gmap list.
From Stdlib Require String Ascii.
Import String.StringSyntax.
Delimit Scope string_scope with string.
Import ListNotations.
Open Scope Z_scope.

(* ------------------------------------------------------------------ *)
(** ** Error monad: [Abort] is a failed [assert] or undefined behaviour. *)

Inductive result (A : Type) : Type :=
| Ok (a : A)
| Abort.
Arguments Ok {A} a.
Arguments Abort {A}.

Definition rbind {A B : Type} (m : result A) (k : A -> result B) : result B :=
  match m with
  | Ok a => k a
  | Abort => Abort
  end.

Notation "'let!' x := m 'in' k" := (rbind m (fun x => k))
  (at level 200, x name, m at level 100, k at level 200).

Definition assert (b : bool) : result unit := if b then Ok tt else Abort.

(* ------------------------------------------------------------------ *)
(** ** Data model (DirectoryWatcher.h) *)

(** [enum struct EFileAction] *)
Inductive EFileAction :=
| None_
| Added
| Removed
| Modified
| RenamedFrom
| RenamedTo
| TooManyChanges.

Definition EFileAction_eqb (a b : EFileAction) : bool :=
  match a, b with
  | None_, None_ | Added, Added | Removed, Removed | Modified, Modified
  | RenamedFrom, RenamedFrom | RenamedTo, RenamedTo
  | TooManyChanges, TooManyChanges => true
  | _, _ => false
  end.

Definition MAX_PATH : Z := 260.

(** [struct FileChange]; [path] is the whole [char path[MAX_PATH * 3]] array,
    as a list of [MAX_PATH * 3] bytes. *)
Record FileChange := mkFileChange {
  path : list Z;
  path_length : Z;
  action : EFileAction;
  creation_time : Z;
  modification_time : Z;
  change_time : Z;
  access_time : Z;
  size : Z;
  attributes : Z;
  is_directory : bool
}.

(** [FileChange change = {};] *)
Definition zero_change : FileChange :=
  mkFileChange (repeat 0 (Z.to_nat (MAX_PATH * 3))) 0 None_ 0 0 0 0 0 0 false.

(* ------------------------------------------------------------------ *)
(** ** ThreadSafeQueue

    [Lock]/[Unlock] bracket every operation; in this sequential model of one
    operation they leave the lock free and are not represented.  [data] is
    the backing storage as a function from index to element; [data_valid]
    is [data != 0]. *)

Record Queue := mkQueue {
  data : Z -> FileChange;
  data_valid : bool;
  capacity : Z;
  count : Z;
  front_index : Z
}.

Definition InitialCapacity : Z := 16.
Definition GrowRate : Z := 2.

(** Contents of fresh [malloc] memory: some fixed garbage. *)
Definition uninit : Z -> FileChange := fun _ => zero_change.

(** [CopyMemory(dst + dst_off, src + src_off, n * sizeof(FileChange))]. *)
Definition CopyMemory (dst : Z -> FileChange) (dst_off : Z)
    (src : Z -> FileChange) (src_off n : Z) : Z -> FileChange :=
  fun i => if (dst_off <=? i) && (i <? dst_off + n)
           then src (src_off + (i - dst_off)) else dst i.

Definition store (m : Z -> FileChange) (i : Z) (x : FileChange) : Z -> FileChange :=
  fun j => if j =? i then x else m j.

(** C++ [%] on [s32]: truncated remainder; a zero divisor is undefined. *)
Definition rem_s32 (a b : Z) : result Z := if b =? 0 then Abort else Ok (Z.rem a b).

Definition Create : Queue :=
  {| data := uninit; data_valid := true; capacity := InitialCapacity;
     count := 0; front_index := 0 |}.

Definition Grow (q : Queue) : result Queue :=
  let! _ := assert (data_valid q && negb (capacity q =? 0)) in
  let new_capacity := capacity q * GrowRate in
  let new_data := uninit in
  let new_data :=
    if front_index q + count q >? capacity q then
      let block1_count := capacity q - front_index q in
      let block2_count := count q - block1_count in
      let d1 := CopyMemory new_data 0 (data q) (front_index q) block1_count in
      CopyMemory d1 block1_count (data q) 0 block2_count
    else CopyMemory new_data 0 (data q) (front_index q) (count q) in
  Ok {| data := new_data; data_valid := true; capacity := new_capacity;
        count := count q; front_index := 0 |}.

Definition Push (q : Queue) (element : FileChange) : result Queue :=
  let! q := (if count q =? capacity q then Grow q else Ok q) in
  let! back_index := rem_s32 (front_index q + count q) (capacity q) in
  Ok {| data := store (data q) back_index element; data_valid := data_valid q;
        capacity := capacity q; count := count q + 1; front_index := front_index q |}.

(** [Pop]: [Some e] is [true] with [*element = e]; [None] is [false]. *)
Definition Pop (q : Queue) : result (option FileChange * Queue) :=
  let has_split_rename :=
    (count q =? 1) && EFileAction_eqb (action (data q (front_index q))) RenamedFrom in
  if negb (count q =? 0) && negb has_split_rename then
    let element := data q (front_index q) in
    let! f := rem_s32 (front_index q + 1) (capacity q) in
    Ok (Some element,
        {| data := data q; data_valid := data_valid q; capacity := capacity q;
           count := count q - 1; front_index := f |})
  else Ok (None, q).

Definition Destroy (q : Queue) : Queue :=
  {| data := uninit; data_valid := false; capacity := 0; count := 0; front_index := 0 |}.

(** The logical contents: [data[(front + i) % capacity]] for [i < count]. *)
Definition contents (q : Queue) : list FileChange :=
  map (fun i => data q (Z.rem (front_index q + Z.of_nat i) (capacity q)))
      (seq 0 (Z.to_nat (count q))).

(** The queue invariant. *)
Definition queue_wf (q : Queue) : Prop :=
  data_valid q = true /\ 0 < capacity q /\ 0 <= front_index q < capacity q /\
  0 <= count q <= capacity q.

(** A client run: a sequence of [Push] and [Pop] calls. *)
Inductive QOp := QPush (e : FileChange) | QPop.

(** Runs the calls; returns the elements popped and the final queue. *)
Fixpoint run_queue (q : Queue) (ops : list QOp) : result (list FileChange * Queue) :=
  match ops with
  | [] => Ok ([], q)
  | QPush e :: ops' => let! q' := Push q e in run_queue q' ops'
  | QPop :: ops' =>
      let! r := Pop q in
      let! rest := run_queue (snd r) ops' in
      Ok (match fst r with Some e => e :: fst rest | None => fst rest end, snd rest)
  end.

Fixpoint pushed (ops : list QOp) : list FileChange :=
  match ops with
  | [] => []
  | QPush e :: ops' => e :: pushed ops'
  | QPop :: ops' => pushed ops'
  end.

(* ------------------------------------------------------------------ *)
(** ** Windows constants and the UTF-16 to UTF-8 conversion *)

Definition FILE_ACTION_ADDED : Z := 1.
Definition FILE_ACTION_REMOVED : Z := 2.
Definition FILE_ACTION_MODIFIED : Z := 3.
Definition FILE_ACTION_RENAMED_OLD_NAME : Z := 4.
Definition FILE_ACTION_RENAMED_NEW_NAME : Z := 5.
Definition FILE_ATTRIBUTE_DIRECTORY : Z := 16.
Definition ERROR_OPERATION_ABORTED : Z := 995.
Definition INVALID_HANDLE_VALUE : Z := -1.
Definition BACKSLASH : Z := 92.

Definition is_high_surrogate (u : Z) : bool := (55296 <=? u) && (u <=? 56319).
Definition is_low_surrogate (u : Z) : bool := (56320 <=? u) && (u <=? 57343).

(** UTF-8 bytes of one code point. *)
Definition utf8_of_code_point (c : Z) : list Z :=
  if c <? 128 then [c]
  else if c <? 2048 then
    [Z.lor 192 (Z.shiftr c 6); Z.lor 128 (Z.land c 63)]
  else if c <? 65536 then
    [Z.lor 224 (Z.shiftr c 12); Z.lor 128 (Z.land (Z.shiftr c 6) 63);
     Z.lor 128 (Z.land c 63)]
  else
    [Z.lor 240 (Z.shiftr c 18); Z.lor 128 (Z.land (Z.shiftr c 12) 63);
     Z.lor 128 (Z.land (Z.shiftr c 6) 63); Z.lor 128 (Z.land c 63)].

Definition REPLACEMENT_CHARACTER : Z := 65533.

(** What [WideCharToMultiByte(CP_UTF8, 0, ...)] produces for a sequence of
    UTF-16 code units: surrogate pairs are combined, unpaired surrogates are
    replaced by U+FFFD. *)
Fixpoint utf8_of_utf16 (s : list Z) : list Z :=
  match s with
  | [] => []
  | u :: rest =>
      if is_high_surrogate u then
        match rest with
        | l :: rest' =>
            if is_low_surrogate l then
              utf8_of_code_point
                (65536 + Z.shiftl (u - 55296) 10 + (l - 56320)) ++ utf8_of_utf16 rest'
            else utf8_of_code_point REPLACEMENT_CHARACTER ++ utf8_of_utf16 rest
        | [] => utf8_of_code_point REPLACEMENT_CHARACTER
        end
      else if is_low_surrogate u then
        utf8_of_code_point REPLACEMENT_CHARACTER ++ utf8_of_utf16 rest
      else utf8_of_code_point u ++ utf8_of_utf16 rest
  end.

(** [WideCharToMultiByte(CP_UTF8, 0, src, cch, dst, cb, 0, 0)]: the byte
    count and the bytes written; [0] when the output does not fit in [cb]
    bytes.  What the failing call leaves in [dst] is not specified; the
    model writes nothing, and no theorem below depends on those bytes. *)
Definition WideCharToMultiByte (src : list Z) (cch cb : Z) : Z * list Z :=
  let out := utf8_of_utf16 (firstn (Z.to_nat cch) src) in
  if Z.of_nat (length out) <=? cb then (Z.of_nat (length out), out) else (0, []).

(** The bytes [out] written at the start of a [char] array. *)
Definition write_bytes (arr out : list Z) : list Z := out ++ drop (length out) arr.

(** [change.path[i] = b] on the [char path[MAX_PATH * 3]] array: an index
    outside the 780-byte array is undefined behaviour ([Abort]). *)
Definition set_path_byte (c : FileChange) (i b : Z) : result FileChange :=
  let! _ := assert ((0 <=? i) && (i <? MAX_PATH * 3)) in
  Ok (mkFileChange (<[Z.to_nat i := b]> (path c)) (path_length c) (action c)
        (creation_time c) (modification_time c) (change_time c) (access_time c)
        (size c) (attributes c) (is_directory c)).

(* ------------------------------------------------------------------ *)
(** ** Notification Decoder ([ProcessNotification]) *)

(** The fields of [FILE_NOTIFY_EXTENDED_INFORMATION] that the decoder reads.
    [FileName] holds the UTF-16 code units of the name, [FileNameLength]
    its size in bytes. *)
Record NotifyEntry := mkNotifyEntry {
  NextEntryOffset : Z;
  Action : Z;
  CreationTime : Z;
  LastModificationTime : Z;
  LastChangeTime : Z;
  LastAccessTime : Z;
  FileSize : Z;
  FileAttributes : Z;
  FileNameLength : Z;
  FileName : list Z
}.

(** A change buffer as the decoder sees it: its size in bytes and the entry
    read at each byte offset. *)
Record NotifyBuffer := mkNotifyBuffer {
  buffer_bytes : Z;
  entry_at : Z -> NotifyEntry
}.

(** The cast of [buffer + offset] to a notification entry; a read outside
    the buffer is not modelled ([Abort]). *)
Definition read_entry (buffer : NotifyBuffer) (offset : Z) : result NotifyEntry :=
  if (0 <=? offset) && (offset <? buffer_bytes buffer) then Ok (entry_at buffer offset)
  else Abort.

(** [switch (event->Action)] *)
Definition action_of_code (code : Z) : EFileAction :=
  if code =? FILE_ACTION_ADDED then Added
  else if code =? FILE_ACTION_REMOVED then Removed
  else if code =? FILE_ACTION_MODIFIED then Modified
  else if code =? FILE_ACTION_RENAMED_OLD_NAME then RenamedFrom
  else if code =? FILE_ACTION_RENAMED_NEW_NAME then RenamedTo
  else None_.

(** The [char16_t combined_path[MAX_PATH]] stack array: every write must be
    below index [MAX_PATH]; an access outside it is undefined ([Abort]).
    Returns the code units before the terminator and [combined_path_length]. *)
Definition combine_path (directory_path : list Z) (directory_path_length : Z)
    (event : NotifyEntry) : result (list Z * Z) :=
  let combined_path_length := directory_path_length in
  let! _ := assert ((0 <=? combined_path_length) && (combined_path_length <=? MAX_PATH)) in
  let combined_path := firstn (Z.to_nat combined_path_length) directory_path in
  let! _ := assert (1 <=? combined_path_length) in
  let last := nth (Z.to_nat (combined_path_length - 1)) combined_path 0 in
  let! cp :=
    (if negb (last =? BACKSLASH) then
       let! _ := assert (combined_path_length <? MAX_PATH) in
       Ok (combined_path ++ [BACKSLASH], combined_path_length + 1)
     else Ok (combined_path, combined_path_length)) in
  let (combined_path, combined_path_length) := cp in
  let n := FileNameLength event / 2 in
  let! _ := assert (combined_path_length + n <=? MAX_PATH) in
  let combined_path := combined_path ++ firstn (Z.to_nat n) (FileName event) in
  let combined_path_length := combined_path_length + n in
  let! _ := assert (combined_path_length <? MAX_PATH) in
  Ok (combined_path, combined_path_length).

(** One iteration of the [do ... while] body: the record pushed for [event]. *)
Definition decode_entry (directory_path : list Z) (directory_path_length : Z)
    (event : NotifyEntry) : result FileChange :=
  let! cp := combine_path directory_path directory_path_length event in
  let (combined_path, combined_path_length) := cp in
  let action := action_of_code (Action event) in
  let attrs := FileAttributes event in
  let (written, out) :=
    WideCharToMultiByte (combined_path ++ [0]) (combined_path_length + 1) (MAX_PATH * 3) in
  Ok {| path := write_bytes (path zero_change) out;
        path_length := written - 1;
        action := action;
        creation_time := CreationTime event;
        modification_time := LastModificationTime event;
        change_time := LastChangeTime event;
        access_time := LastAccessTime event;
        size := FileSize event;
        attributes := attrs;
        is_directory := negb (Z.land attrs FILE_ATTRIBUTE_DIRECTORY =? 0) |}.

(** [s32 offset; offset += event->NextEntryOffset]: the [u32] sum converted
    back to [s32]. *)
Definition wrap_s32 (z : Z) : Z := (z + 2 ^ 31) mod 2 ^ 32 - 2 ^ 31.

(** The [do ... while (event->NextEntryOffset)] loop.  [fuel] bounds the
    number of iterations; a run that would exceed it (only possible for a
    buffer whose offsets wrap around into a cycle) is not modelled and
    reported as [Abort]. *)
Fixpoint decode_loop (fuel : nat) (buffer : NotifyBuffer) (directory_path : list Z)
    (directory_path_length : Z) (offset : Z) (q : Queue) : result Queue :=
  match fuel with
  | O => Abort
  | S fuel' =>
      let! event := read_entry buffer offset in
      let offset := wrap_s32 (offset + NextEntryOffset event) in
      let! change := decode_entry directory_path directory_path_length event in
      let! q := Push q change in
      if NextEntryOffset event =? 0 then Ok q
      else decode_loop fuel' buffer directory_path directory_path_length offset q
  end.

(** Iteration bound of [decode_loop]: a chain of entries that moves forward
    visits at most one entry per byte of the buffer. *)
Definition decode_fuel (buffer : NotifyBuffer) : nat := S (Z.to_nat (buffer_bytes buffer)).

(** The overflow record: [buffer == 0]. *)
Definition overflow_change (directory_path : list Z) (directory_path_length : Z)
    : result FileChange :=
  let (written, out) :=
    WideCharToMultiByte directory_path directory_path_length (MAX_PATH * 3) in
  let change :=
    {| path := write_bytes (path zero_change) out; path_length := written;
       action := TooManyChanges; creation_time := 0; modification_time := 0;
       change_time := 0; access_time := 0; size := 0; attributes := 0;
       is_directory := true |} in
  set_path_byte change (path_length change) 0.

Definition ProcessNotification (buffer : option NotifyBuffer) (directory_path : list Z)
    (directory_path_length : Z) (q : Queue) : result Queue :=
  match buffer with
  | None =>
      let! change := overflow_change directory_path directory_path_length in
      Push q change
  | Some buf => decode_loop (decode_fuel buf) buf directory_path directory_path_length 0 q
  end.

(* ------------------------------------------------------------------ *)
(** ** Watch requests and the watcher state

    [struct ReadChangesRequest] without its [watcher] back pointer (there is
    one watcher) and its [next] link: the request list is kept as the list
    of request pointers from [requests] to the last [next]. [rq_buffers]
    gives the contents of the change buffer at [buffers + buffer_size * slot];
    [pending_read] is the operating system's side of the one overlapped
    [ReadDirectoryChangesExW] call on the request: the slot it fills. *)
Record ReadChangesRequest := mkRequest {
  rq_buffers : Z -> NotifyBuffer;
  buffer_size : Z;
  rq_path : list Z;
  rq_path_length : Z;
  buffer_index : Z;
  is_recursive : bool;
  directory : Z;
  pending_read : option Z
}.

(** [struct DirectoryWatcher], together with the operating-system state it
    drives: the directory handles that are open and the APCs queued to the
    worker thread. *)
Record Watcher := mkWatcher {
  queue : Queue;
  requests : list Z;
  heap : gmap Z ReadChangesRequest;
  thread_handle : Z;
  should_terminate : bool;
  outstanding_request_count : Z;
  open_handles : list Z;
  apc_queue : list Z
}.

Definition set_queue (w : Watcher) (q : Queue) : Watcher :=
  mkWatcher q (requests w) (heap w) (thread_handle w) (should_terminate w)
    (outstanding_request_count w) (open_handles w) (apc_queue w).
Definition set_heap (w : Watcher) (h : gmap Z ReadChangesRequest) : Watcher :=
  mkWatcher (queue w) (requests w) h (thread_handle w) (should_terminate w)
    (outstanding_request_count w) (open_handles w) (apc_queue w).
Definition set_outstanding (w : Watcher) (n : Z) : Watcher :=
  mkWatcher (queue w) (requests w) (heap w) (thread_handle w) (should_terminate w)
    n (open_handles w) (apc_queue w).
Definition set_should_terminate (w : Watcher) (b : bool) : Watcher :=
  mkWatcher (queue w) (requests w) (heap w) (thread_handle w) b
    (outstanding_request_count w) (open_handles w) (apc_queue w).
Definition set_open_handles (w : Watcher) (hs : list Z) : Watcher :=
  mkWatcher (queue w) (requests w) (heap w) (thread_handle w) (should_terminate w)
    (outstanding_request_count w) hs (apc_queue w).
Definition set_apc_queue (w : Watcher) (a : list Z) : Watcher :=
  mkWatcher (queue w) (requests w) (heap w) (thread_handle w) (should_terminate w)
    (outstanding_request_count w) (open_handles w) a.

Definition set_buffer_index (r : ReadChangesRequest) (i : Z) (pending : option Z)
    : ReadChangesRequest :=
  mkRequest (rq_buffers r) (buffer_size r) (rq_path r) (rq_path_length r) i
    (is_recursive r) (directory r) pending.

(** A request pointer that is not a live allocation: use after [free]. *)
Definition load (w : Watcher) (p : Z) : result ReadChangesRequest :=
  match heap w !! p with Some r => Ok r | None => Abort end.

Definition handle_is_open (w : Watcher) (h : Z) : bool := existsb (Z.eqb h) (open_handles w).

(** [CloseHandle] on a directory handle. *)
Definition close_handle (hs : list Z) (h : Z) : list Z := filter (fun x => negb (x =? h)) hs.

(** Contents of the fresh change buffers. *)
Definition garbage_entry : NotifyEntry := mkNotifyEntry 0 0 0 0 0 0 0 0 0 [].
Definition fresh_buffers (change_buffer_size : Z) : Z -> NotifyBuffer :=
  fun _ => mkNotifyBuffer change_buffer_size (fun _ => garbage_entry).

(* ------------------------------------------------------------------ *)
(** ** Facade and worker routines *)

Definition Initialize (w : Watcher) (new_thread : Z) : Watcher :=
  mkWatcher Create [] (heap w) new_thread false 0 (open_handles w) (apc_queue w).

(** [AddDirectory].  The UTF-8 to UTF-16 conversion of the argument is an
    external primitive: [wide_directory] is its result ([None] when
    [MultiByteToWideChar] reports 0 units).  [memory] is what [malloc]
    returns (0 for failure) and [opened] what [CreateFileW] returns. *)
Definition AddDirectory (w : Watcher) (wide_directory : option (list Z))
    (is_recursive : bool) (change_buffer_size : Z) (memory opened : Z)
    : result (bool * Watcher) :=
  let! _ := assert (negb (thread_handle w =? 0) && (change_buffer_size >? 0)) in
  let path_count :=
    match wide_directory with Some d => Z.of_nat (length d) + 1 | None => 0 end in
  let! _ := assert (negb (memory =? 0) && (path_count >? 0)) in
  let wpath := match wide_directory with Some d => d | None => [] end in
  let request :=
    mkRequest (fresh_buffers change_buffer_size) change_buffer_size wpath
      (path_count - 1) 0 false opened None in
  let w := set_heap w (<[memory := request]> (heap w)) in
  if negb (opened =? INVALID_HANDLE_VALUE) then
    let request :=
      mkRequest (rq_buffers request) (buffer_size request) (rq_path request)
        (rq_path_length request) 0 is_recursive opened None in
    let w := set_heap w (<[memory := request]> (heap w)) in
    let w := set_open_handles w (opened :: open_handles w) in
    (* Append this request to the list. *)
    let w := mkWatcher (queue w) (requests w ++ [memory]) (heap w) (thread_handle w)
               (should_terminate w) (outstanding_request_count w) (open_handles w)
               (apc_queue w) in
    (* QueueUserAPC(ThreadAddDirectoryProc, thread_handle, request) *)
    let w := set_apc_queue w (apc_queue w ++ [memory]) in
    Ok (true, w)
  else
    Ok (false, set_heap w (delete memory (heap w))).

Definition TryGetNextChange (w : Watcher) : result (option FileChange * Watcher) :=
  let! r := Pop (queue w) in
  Ok (fst r, set_queue w (snd r)).

(** [BeginRead]: the read targets the buffer at the current index, then the
    index is toggled.  The call fails, and no read is pending, when the
    directory handle has been closed. *)
Definition BeginRead (w : Watcher) (p : Z) : result Watcher :=
  let! r := load w p in
  let slot := buffer_index r in
  let r := set_buffer_index r (Z.lxor (buffer_index r) 1)
             (if handle_is_open w (directory r) then Some slot else None) in
  Ok (set_heap w (<[p := r]> (heap w))).

Definition ThreadAddDirectoryProc (w : Watcher) (p : Z) : result Watcher :=
  let w := set_outstanding w (outstanding_request_count w + 1) in
  BeginRead w p.

(** The operating system completes the pending read of request [p]: on
    success it has written [filled] into the slot being read.  [None]: no
    read of [p] is pending, so no completion can be delivered. *)
Definition os_complete (w : Watcher) (p err bytes : Z) (filled : NotifyBuffer)
    : option Watcher :=
  match heap w !! p with
  | None => None
  | Some r =>
      match pending_read r with
      | None => None
      | Some s =>
          let bufs :=
            if (err =? 0) && (0 <? bytes)
            then fun i => if i =? s then filled else rq_buffers r i
            else rq_buffers r in
          let r := mkRequest bufs (buffer_size r) (rq_path r) (rq_path_length r)
                     (buffer_index r) (is_recursive r) (directory r) None in
          Some (set_heap w (<[p := r]> (heap w)))
      end
  end.

(** First part of [NotificationCompletion], up to the computation of
    [buffer]: [None] when the request has been freed, otherwise the slot of
    [buffer] and [did_overflow]. *)
Definition completion_enter (w : Watcher) (p err bytes : Z)
    : result (option (Z * bool) * Watcher) :=
  let! r := load w p in
  if (err =? ERROR_OPERATION_ABORTED) || should_terminate w then
    let w := set_outstanding w (outstanding_request_count w - 1) in
    Ok (None, set_heap w (delete p (heap w)))
  else
    let! _ := (if negb (err =? 0) then assert false else Ok tt) in
    let did_overflow := (err =? 0) && (bytes =? 0) in
    Ok (Some (Z.lxor (buffer_index r) 1, did_overflow), w).

(** Last part of [NotificationCompletion]: decoding [buffer]. *)
Definition completion_decode (w : Watcher) (p slot : Z) (did_overflow : bool)
    : result Watcher :=
  let! r := load w p in
  let buffer := rq_buffers r slot in
  let! q := ProcessNotification (if did_overflow then None else Some buffer)
              (rq_path r) (rq_path_length r) (queue w) in
  Ok (set_queue w q).

Definition NotificationCompletion (w : Watcher) (p err bytes : Z) : result Watcher :=
  let! e := completion_enter w p err bytes in
  match e with
  | (None, w) => Ok w
  | (Some (slot, did_overflow), w) =>
      let! w := BeginRead w p in
      completion_decode w p slot did_overflow
  end.

(** The pieces of [ShutDown]. *)
Definition shutdown_begin (w : Watcher) : Watcher := set_should_terminate w true.

(** One iteration of the loop over the request list: [CancelIo] (which
    leaves the model state alone) and [CloseHandle] of [request->directory]. *)
Definition shutdown_close (w : Watcher) (p : Z) : result Watcher :=
  let! r := load w p in
  Ok (set_open_handles w (close_handle (open_handles w) (directory r))).

(** [CloseHandle(thread_handle)] closes the handle only; then [queue.Destroy()]. *)
Definition shutdown_end (w : Watcher) : Watcher := set_queue w (Destroy (queue w)).

Fixpoint shutdown_loop (w : Watcher) (current : list Z) : result Watcher :=
  match current with
  | [] => Ok w
  | p :: rest => let! w := shutdown_close w p in shutdown_loop w rest
  end.

Definition ShutDown (w : Watcher) : result Watcher :=
  let w := shutdown_begin w in
  let! w := shutdown_loop w (requests w) in
  Ok (shutdown_end w).

(** [ThreadProc]'s loop condition: the worker keeps waiting while this holds. *)
Definition worker_keeps_waiting (w : Watcher) : bool :=
  negb (outstanding_request_count w =? 0) || negb (should_terminate w).

(* ------------------------------------------------------------------ *)
(** ** The caller thread and the worker thread, interleaved

    The caller thread runs [ShutDown] piece by piece; the worker thread runs
    [ThreadProc]: it waits alertably and runs queued APCs and completion
    routines, [NotificationCompletion] in three pieces (entry checks,
    [BeginRead], decoding).  A schedule picks which thread moves. *)

Inductive MainPc :=
| MainIdle
| MainShutLoop (current : list Z)
| MainShutEnd
| MainReturned.

Inductive WorkerPc :=
| WorkerWait
| WorkerRearm (p slot : Z) (did_overflow : bool)
| WorkerDecode (p slot : Z) (did_overflow : bool)
| WorkerExited.

Inductive Event :=
| EvShutDownCalled
| EvShutDownReturned
| EvDecode (p : Z)
| EvWorkerExited.

Record System := mkSystem {
  sys_watcher : Watcher;
  main_pc : MainPc;
  worker_pc : WorkerPc;
  crashed : bool;
  events : list Event
}.

Inductive Label :=
| LMain
| LWorker
| LApc
| LComplete (p err bytes : Z) (filled : NotifyBuffer).

Definition sys_update (s : System) (r : result Watcher) (m : MainPc) (wk : WorkerPc)
    (evs : list Event) : System :=
  match r with
  | Ok w => mkSystem w m wk (crashed s) (events s ++ evs)
  | Abort => mkSystem (sys_watcher s) m wk true (events s ++ evs)
  end.

(** One step; [None] when the scheduled thread cannot move. *)
Definition sys_step (s : System) (l : Label) : option System :=
  if crashed s then None else
  let w := sys_watcher s in
  match l, main_pc s, worker_pc s with
  | LMain, MainIdle, _ =>
      let w := shutdown_begin w in
      Some (sys_update s (Ok w) (MainShutLoop (requests w)) (worker_pc s) [EvShutDownCalled])
  | LMain, MainShutLoop (p :: rest), _ =>
      Some (sys_update s (shutdown_close w p) (MainShutLoop rest) (worker_pc s) [])
  | LMain, MainShutLoop [], _ =>
      Some (sys_update s (Ok w) MainShutEnd (worker_pc s) [])
  | LMain, MainShutEnd, _ =>
      Some (sys_update s (Ok (shutdown_end w)) MainReturned (worker_pc s) [EvShutDownReturned])
  | LWorker, _, WorkerWait =>
      if worker_keeps_waiting w then None
      else Some (sys_update s (Ok w) (main_pc s) WorkerExited [EvWorkerExited])
  | LApc, _, WorkerWait =>
      match apc_queue w with
      | p :: rest =>
          Some (sys_update s (ThreadAddDirectoryProc (set_apc_queue w rest) p)
                  (main_pc s) WorkerWait [])
      | [] => None
      end
  | LComplete p err bytes filled, _, WorkerWait =>
      match os_complete w p err bytes filled with
      | None => None
      | Some w =>
          match completion_enter w p err bytes with
          | Ok (None, w) => Some (sys_update s (Ok w) (main_pc s) WorkerWait [])
          | Ok (Some (slot, ov), w) =>
              Some (sys_update s (Ok w) (main_pc s) (WorkerRearm p slot ov) [])
          | Abort => Some (sys_update s Abort (main_pc s) WorkerWait [])
          end
      end
  | LWorker, _, WorkerRearm p slot ov =>
      Some (sys_update s (BeginRead w p) (main_pc s) (WorkerDecode p slot ov) [])
  | LWorker, _, WorkerDecode p slot ov =>
      Some (sys_update s (completion_decode w p slot ov) (main_pc s) WorkerWait [EvDecode p])
  | _, _, _ => None
  end.

Fixpoint sys_run (s : System) (sched : list Label) : option System :=
  match sched with
  | [] => Some s
  | l :: rest => match sys_step s l with Some s' => sys_run s' rest | None => None end
  end.

(* ------------------------------------------------------------------ *)
(** ** Specification-side definitions *)

(** The path composition the specification describes: the directory path,
    a backslash unless it already ends in one, then the file name. *)
Definition composed_path (directory_path file_name : list Z) : list Z :=
  directory_path ++
  (match last directory_path with
   | Some u => if u =? BACKSLASH then [] else [BACKSLASH]
   | None => [BACKSLASH]
   end) ++ file_name.

(** [ev] with its [Action] code replaced. *)
Definition with_action (event : NotifyEntry) (code : Z) : NotifyEntry :=
  mkNotifyEntry (NextEntryOffset event) code (CreationTime event)
    (LastModificationTime event) (LastChangeTime event) (LastAccessTime event)
    (FileSize event) (FileAttributes event) (FileNameLength event) (FileName event).

(** The buffer-toggling invariant of a request: its index is 0 or 1, and a
    pending read fills the buffer at the other index. *)
Definition rq_inv (r : ReadChangesRequest) : Prop :=
  (buffer_index r = 0 \/ buffer_index r = 1) /\
  (forall s, pending_read r = Some s -> s = Z.lxor (buffer_index r) 1).

Definition heap_inv (w : Watcher) : Prop := map_Forall (fun _ r => rq_inv r) (heap w).

(** A UTF-16 code unit. *)
Definition utf16_unit (u : Z) : Prop := 0 <= u < 65536.

(** The size of the [path] array in bytes. *)
Definition path_bytes : nat := Z.to_nat (MAX_PATH * 3).

(* ------------------------------------------------------------------ *)
(** ** Concrete inputs *)

(** The UTF-16 code units of an ASCII string. *)
Definition wide (s : String.string) : list Z :=
  map (fun c => Z.of_nat (Ascii.nat_of_ascii c)) (String.list_ascii_of_string s).

(** A notification entry for file [name] (code units) with action [code]. *)
Definition entry_for (name : list Z) (code next : Z) : NotifyEntry :=
  mkNotifyEntry next code 0 0 0 0 0 0 (2 * Z.of_nat (length name)) name.

(** A buffer whose entries sit at offsets 0 and 64. *)
Definition two_entry_buffer (first second : NotifyEntry) : NotifyBuffer :=
  mkNotifyBuffer 128 (fun o => if o <? 64 then first else second).

(** A buffer holding an Added entry for "a.txt" followed by a last entry. *)
Definition sample_buffer : NotifyBuffer :=
  two_entry_buffer (entry_for (wide "a.txt"%string) FILE_ACTION_ADDED 64) (entry_for [] 0 0).

(** The value of a result, or [d] when it aborted. *)
Definition ok_or {A} (d : A) (r : result A) : A :=
  match r with Ok a => a | Abort => d end.

(** A watcher just initialised with worker thread handle 7. *)
Definition sample_watcher0 : Watcher :=
  Initialize (mkWatcher Create [] empty 0 false 0 [] []) 7.

(** The same watcher after [AddDirectory("C:\data", true, 32768)] with
    [malloc] returning 1000 and [CreateFileW] returning handle 55. *)
Definition sample_watcher1 : Watcher :=
  snd (ok_or (false, sample_watcher0)
         (AddDirectory sample_watcher0 (Some (wide "C:\data"%string)) true 32768 1000 55)).

Definition default_request : ReadChangesRequest :=
  mkRequest (fresh_buffers 0) 0 [] 0 0 false 0 None.

(** The request allocated at 1000 in [sample_watcher1]. *)
Definition sample_request : ReadChangesRequest :=
  match heap sample_watcher1 !! 1000 with Some r => r | None => default_request end.

(** A directory path in the extended-length form ["\\?\C:\"] with three
    255-letter components (the longest name NTFS allows) and a last
    component of [n] letters: [7 + 3 * 256 + n] units, as many UTF-8 bytes. *)
Definition deep_directory (n : nat) : list Z :=
  wide "\\?\C:\"%string ++ repeat 97 255 ++ [BACKSLASH] ++ repeat 98 255 ++ [BACKSLASH]
  ++ repeat 99 255 ++ [BACKSLASH] ++ repeat 100 n.

(** 785 and exactly [MAX_PATH * 3] = 780 bytes. *)
Definition long_directory : list Z := deep_directory 10.
Definition exact_directory : list Z := deep_directory 5.

(** [sample_watcher0] after a successful [AddDirectory(d, true, 32768)]
    ([malloc] returning 1000, [CreateFileW] handle 55) and the queued APC:
    the read into slot 0 is pending. *)
Definition watcher_for (d : list Z) : Watcher :=
  let w := snd (ok_or (false, sample_watcher0)
                  (AddDirectory sample_watcher0 (Some d) true 32768 1000 55)) in
  ok_or w (ThreadAddDirectoryProc (set_apc_queue w []) 1000).

Definition request_at (w : Watcher) (p : Z) : ReadChangesRequest :=
  match heap w !! p with Some r => r | None => default_request end.

(** [sample_watcher1] once the worker has run the queued APC: the read into
    slot 0 is pending. *)
Definition sample_watcher2 : Watcher :=
  ok_or sample_watcher1 (ThreadAddDirectoryProc (set_apc_queue sample_watcher1 []) 1000).

Definition sample_request2 : ReadChangesRequest :=
  match heap sample_watcher2 !! 1000 with Some r => r | None => default_request end.

(** [sample_watcher2] once the operating system has completed that read with
    64 bytes: [sample_buffer] written into slot 0. *)
Definition sample_watcher3 : Watcher :=
  match os_complete sample_watcher2 1000 0 64 sample_buffer with
  | Some w => w
  | None => sample_watcher2
  end.

(** Both threads at rest after the APC has armed the first read. *)
Definition sample_system0 : System := mkSystem sample_watcher2 MainIdle WorkerWait false [].

(** ... and after the completion of that read with 64 bytes. *)
Definition sample_system1 : System :=
  match sys_step sample_system0 (LComplete 1000 0 64 sample_buffer) with
  | Some s => s
  | None => sample_system0
  end.

(** A full queue whose live range wraps past the end of its storage. *)
Definition wrapped_full_queue : Queue :=
  {| data := fun i => mkFileChange [] i Added 0 0 0 0 0 0 false;
     data_valid := true; capacity := 2; count := 2; front_index := 1 |}.

Definition renamed_from_change : FileChange :=
  mkFileChange [] 0 RenamedFrom 0 0 0 0 0 0 false.
Definition renamed_to_change : FileChange :=
  mkFileChange [] 0 RenamedTo 0 0 0 0 0 0 false.

(** The queue holding one [RenamedFrom] record. *)
Definition lone_rename_queue : Queue :=
  {| data := fun _ => renamed_from_change; data_valid := true;
     capacity := 16; count := 1; front_index := 3 |}.

(* ------------------------------------------------------------------ *)
(** ** The queue's spin lock

    [Lock]: [while (InterlockedExchange(&lock, 1) == 1) {}]; [Unlock]:
    [InterlockedExchange(&lock, 0)].  Two threads share the lock word; each
    is outside the queue, spinning in [Lock], or inside (between [Lock] and
    [Unlock]). *)

(** [InterlockedExchange(target, value)]: the old value and the new word. *)
Definition InterlockedExchange (target value : Z) : Z * Z := (target, value).

Inductive LockPc := Outside | Spinning | Inside.

Record LockState := mkLockState {
  lock : Z;
  lock_pc0 : LockPc;
  lock_pc1 : LockPc
}.

(** One step of a thread: calling [Lock], one exchange of its spin loop, or
    [Unlock]. *)
Definition lock_thread_step (word : Z) (pc : LockPc) : Z * LockPc :=
  match pc with
  | Outside => (word, Spinning)
  | Spinning =>
      let (old, word) := InterlockedExchange word 1 in
      (word, if old =? 1 then Spinning else Inside)
  | Inside => let (_, word) := InterlockedExchange word 0 in (word, Outside)
  end.

(** [false] schedules thread 0, [true] thread 1. *)
Definition lock_step (s : LockState) (t : bool) : LockState :=
  if t then let (word, pc) := lock_thread_step (lock s) (lock_pc1 s) in
            mkLockState word (lock_pc0 s) pc
  else let (word, pc) := lock_thread_step (lock s) (lock_pc0 s) in
       mkLockState word pc (lock_pc1 s).

Fixpoint lock_run (s : LockState) (sched : list bool) : LockState :=
  match sched with
  | [] => s
  | t :: rest => lock_run (lock_step s t) rest
  end.

(** [ThreadSafeQueue lock = 0]: both threads outside. *)
Definition lock_init : LockState := mkLockState 0 Outside Outside.

Definition is_inside (pc : LockPc) : bool := match pc with Inside => true | _ => false end.

(** The lock word is 1 exactly while one thread is inside, and never are
    both threads inside. *)
Definition lock_ok (s : LockState) : bool :=
  if is_inside (lock_pc0 s) && is_inside (lock_pc1 s) then false
  else lock s =? (if is_inside (lock_pc0 s) || is_inside (lock_pc1 s) then 1 else 0).

(* ------------------------------------------------------------------ *)
(** ** The consumer loop of the header's usage example

    [while (watcher.TryGetNextChange(&change)) { ... }], with [fuel]
    bounding the number of iterations. *)
Fixpoint drain (fuel : nat) (w : Watcher) : result (list FileChange * Watcher) :=
  match fuel with
  | O => Ok ([], w)
  | S fuel' =>
      let! r := TryGetNextChange w in
      match r with
      | (Some change, w) =>
          let! rest := drain fuel' w in
          Ok (change :: fst rest, snd rest)
      | (None, w) => Ok ([], w)
      end
  end.

(* ------------------------------------------------------------------ *)
(** ** Entries of a change buffer

    The entries the decoder's [do ... while] loop visits, in order: from
    offset 0, following [NextEntryOffset] up to the entry whose offset is 0. *)
Fixpoint notify_entries (fuel : nat) (buffer : NotifyBuffer) (offset : Z)
    : result (list NotifyEntry) :=
  match fuel with
  | O => Abort
  | S fuel' =>
      let! event := read_entry buffer offset in
      if NextEntryOffset event =? 0 then Ok [event]
      else
        let! rest := notify_entries fuel' buffer (wrap_s32 (offset + NextEntryOffset event)) in
        Ok (event :: rest)
  end.

(* ------------------------------------------------------------------ *)
(** ** Invariants of the two threads *)

(** Before [ShutDown] starts, the termination flag is clear and the worker
    thread has not exited. *)
Definition idle_inv (s : System) : Prop :=
  main_pc s = MainIdle ->
  should_terminate (sys_watcher s) = false /\ worker_pc s <> WorkerExited.

(** Request accounting: the allocated requests are the ones the worker
    counts in [outstanding_request_count] and the ones whose
    [ThreadAddDirectoryProc] APC is still queued (each once, none with a
    read pending). *)
Definition count_inv (w : Watcher) : Prop :=
  Z.of_nat (stdpp.base.size (heap w)) = outstanding_request_count w + Z.of_nat (length (apc_queue w)) /\
  NoDup (apc_queue w) /\
  Forall (fun p => exists r, heap w !! p = Some r /\ pending_read r = None) (apc_queue w).

(** ... a completion the worker is handling is not one of a queued APC, and
    an exited worker has no outstanding request. *)
Definition sys_count_inv (s : System) : Prop :=
  count_inv (sys_watcher s) /\
  (forall p slot ov, worker_pc s = WorkerRearm p slot ov -> ~ In p (apc_queue (sys_watcher s))) /\
  (worker_pc s = WorkerExited -> outstanding_request_count (sys_watcher s) = 0).

(* ------------------------------------------------------------------ *)
(** ** Request accounting *)

Definition keeps_counts (w w' : Watcher) : Prop :=
  heap w' = heap w /\ outstanding_request_count w' = outstanding_request_count w /\
  apc_queue w' = apc_queue w.

(* ------------------------------------------------------------------ *)
(** ** Proof tactics *)

Ltac result_cases :=
  repeat match goal with
  | H : Ok _ = Ok _ |- _ => injection H as <-
  | H : Some _ = Some _ |- _ => injection H as <-
  | H : Ok _ = Abort |- _ => discriminate H
  | H : Abort = Ok _ |- _ => discriminate H
  | H : None = Some _ |- _ => discriminate H
  | H : context [match ?x with _ => _ end] |- _ =>
      let E := fresh "E" in destruct x eqn:E; cbn [rbind] in H
  end.

(* ------------------------------------------------------------------ *)
(** ** Lemmas on the queue *)

Lemma EFileAction_eqb_eq (a b : EFileAction) : EFileAction_eqb a b = true <-> a = b.
Proof. destruct a, b; simpl; split; congruence. Qed.

Lemma rem_wrap (a b : Z) : 0 < b <= a -> a < 2 * b -> Z.rem a b = a - b.
Proof.
  intros H1 H2. rewrite Z.rem_mod_nonneg by lia.
  symmetry. apply Z.mod_unique with 1; lia.
Qed.

Lemma rem_distinct (a d c : Z) :
  0 <= a -> 0 < d < c -> Z.rem a c <> Z.rem (a + d) c.
Proof.
  intros Ha Hd. rewrite !Z.rem_mod_nonneg by lia.
  pose proof (Z.div_mod a c ltac:(lia)) as E1.
  pose proof (Z.div_mod (a + d) c ltac:(lia)) as E2.
  pose proof (Z.mod_pos_bound a c ltac:(lia)).
  pose proof (Z.mod_pos_bound (a + d) c ltac:(lia)).
  intros E.
  assert (d = c * ((a + d) / c - a / c)) as Ed by (rewrite Z.mul_sub_distr_l; lia).
  destruct (Z_le_gt_dec ((a + d) / c - a / c) 0); nia.
Qed.

Lemma rem_add_rem (a i c : Z) :
  0 <= a -> 0 <= i -> 0 < c -> Z.rem (Z.rem a c + i) c = Z.rem (a + i) c.
Proof.
  intros. pose proof (Z.mod_pos_bound a c ltac:(lia)).
  rewrite (Z.rem_mod_nonneg a c) by lia.
  rewrite (Z.rem_mod_nonneg (a mod c + i) c) by lia.
  rewrite (Z.rem_mod_nonneg (a + i) c) by lia.
  apply Zplus_mod_idemp_l.
Qed.

Lemma seq_succ_end (n : nat) : seq 0 (S n) = seq 0 n ++ [n].
Proof. rewrite seq_S. reflexivity. Qed.

Lemma Grow_spec (q : Queue) :
  queue_wf q ->
  exists q', Grow q = Ok q' /\
    data_valid q' = true /\
    capacity q' = 2 * capacity q /\ front_index q' = 0 /\ count q' = count q /\
    contents q' = contents q /\
    (forall i, count q <= i -> data q' i = uninit i).
Proof.
  intros (Hv & Hc & Hf & Hn). unfold Grow, assert.
  rewrite Hv. destruct (Z.eqb_spec (capacity q) 0) as [E|_]; [lia|]. simpl.
  eexists. split; [reflexivity|]. simpl.
  split; [reflexivity|]. split; [unfold GrowRate; lia|].
  split; [reflexivity|]. split; [reflexivity|]. split.
  - unfold contents; simpl. apply map_ext_in. intros i Hi.
    apply in_seq in Hi. rewrite Z.add_0_l.
    rewrite (Z.rem_small (Z.of_nat i)) by (unfold GrowRate; lia).
    unfold CopyMemory.
    destruct (Z.gtb_spec (front_index q + count q) (capacity q)).
    + destruct (Z.leb_spec (capacity q - front_index q) (Z.of_nat i)).
      * rewrite (proj2 (Z.ltb_lt _ _)) by lia. simpl.
        rewrite rem_wrap by lia. f_equal. lia.
      * rewrite (proj2 (Z.ltb_lt _ (capacity q - front_index q))) by lia.
        rewrite (proj2 (Z.leb_le 0 _)) by lia. simpl.
        rewrite Z.rem_small by lia. f_equal. lia.
    + rewrite (proj2 (Z.ltb_lt _ _)) by lia.
      rewrite (proj2 (Z.leb_le 0 _)) by lia. simpl.
      rewrite Z.rem_small by lia. f_equal. lia.
  - intros i Hi. unfold CopyMemory.
    destruct (Z.gtb_spec (front_index q + count q) (capacity q)).
    + rewrite (proj2 (Z.ltb_ge _ _)) by lia.
      rewrite (proj2 (Z.ltb_ge i (0 + _))) by lia.
      rewrite !andb_false_r. reflexivity.
    + rewrite (proj2 (Z.ltb_ge _ _)) by lia.
      rewrite andb_false_r. reflexivity.
Qed.

(** Storing at the back of a queue that is not full appends. *)
Lemma store_back_contents (q : Queue) (e : FileChange) :
  queue_wf q -> count q < capacity q ->
  contents {| data := store (data q) (Z.rem (front_index q + count q) (capacity q)) e;
              data_valid := data_valid q; capacity := capacity q;
              count := count q + 1; front_index := front_index q |}
  = contents q ++ [e].
Proof.
  intros (Hv & Hc & Hf & Hn) Hlt. unfold contents; simpl.
  replace (Z.to_nat (count q + 1)) with (S (Z.to_nat (count q))) by lia.
  rewrite seq_succ_end, map_app. simpl. f_equal.
  - apply map_ext_in. intros i Hi. apply in_seq in Hi. unfold store.
    destruct (Z.eqb_spec (Z.rem (front_index q + Z.of_nat i) (capacity q))
                         (Z.rem (front_index q + count q) (capacity q))) as [E|]; [|reflexivity].
    exfalso.
    replace (front_index q + count q)
      with (front_index q + Z.of_nat i + (count q - Z.of_nat i)) in E by lia.
    eapply rem_distinct; [| |exact E]; lia.
  - unfold store. rewrite Z2Nat.id by lia. rewrite Z.eqb_refl. reflexivity.
Qed.

Lemma Push_spec (q : Queue) (e : FileChange) :
  queue_wf q ->
  exists q', Push q e = Ok q' /\ queue_wf q' /\
    contents q' = contents q ++ [e] /\ capacity q <= capacity q'.
Proof.
  intros Hwf. unfold Push.
  assert (exists q1, (if count q =? capacity q then Grow q else Ok q) = Ok q1 /\
            queue_wf q1 /\ count q1 < capacity q1 /\ contents q1 = contents q /\
            capacity q <= capacity q1) as (q1 & E1 & Hwf1 & Hlt1 & Hc1 & Hcap1).
  { destruct (Z.eqb_spec (count q) (capacity q)) as [E|E].
    - destruct (Grow_spec q Hwf) as (q' & G & Hv & Hc & Hf & Hn & Hct & _).
      destruct Hwf as (? & ? & ? & ?).
      exists q'. repeat split; auto; lia.
    - exists q. destruct Hwf as (? & ? & ? & ?). repeat split; auto; lia. }
  rewrite E1. simpl. unfold rem_s32.
  destruct Hwf1 as (Hv & Hc & Hf & Hn) eqn:W.
  destruct (Z.eqb_spec (capacity q1) 0); [lia|]. simpl.
  eexists. split; [reflexivity|].
  split; [|split].
  - unfold queue_wf; simpl. repeat split; auto; lia.
  - rewrite store_back_contents by auto. rewrite Hc1. reflexivity.
  - simpl. exact Hcap1.
Qed.

Lemma Pop_spec (q : Queue) :
  queue_wf q ->
  exists r q', Pop q = Ok (r, q') /\ queue_wf q' /\ capacity q' = capacity q /\
    (r = None -> q' = q) /\
    (forall e, r = Some e -> contents q = e :: contents q').
Proof.
  intros Hwf. pose proof Hwf as (Hv & Hc & Hf & Hn). unfold Pop.
  destruct (negb (count q =? 0) && _) eqn:B.
  - unfold rem_s32. destruct (Z.eqb_spec (capacity q) 0); [lia|]. simpl.
    apply andb_true_iff in B as [B _]. apply negb_true_iff, Z.eqb_neq in B.
    do 2 eexists. split; [reflexivity|].
    split; [unfold queue_wf; simpl; repeat split; auto;
            pose proof (Z.rem_bound_pos (front_index q + 1) (capacity q)
                          ltac:(lia) ltac:(lia)); lia|].
    split; [reflexivity|]. split; [discriminate|].
    intros e' Ee. injection Ee as <-.
    unfold contents; simpl.
    replace (Z.to_nat (count q)) with (S (Z.to_nat (count q - 1))) by lia.
    simpl. rewrite Z.add_0_r, Z.rem_small by lia. f_equal.
    rewrite <- seq_shift, map_map. apply map_ext_in. intros i Hi.
    apply in_seq in Hi. rewrite rem_add_rem by lia. do 2 f_equal. lia.
  - do 2 eexists. split; [reflexivity|]. split; [exact Hwf|].
    split; [reflexivity|]. split; [reflexivity|]. discriminate.
Qed.

Lemma contents_length (q : Queue) : length (contents q) = Z.to_nat (count q).
Proof. unfold contents. rewrite length_map, length_seq. reflexivity. Qed.

Lemma contents_head (q : Queue) :
  queue_wf q -> 0 < count q ->
  contents q = data q (front_index q) :: tail (contents q).
Proof.
  intros (Hv & Hc & Hf & Hn) Hpos. unfold contents.
  replace (Z.to_nat (count q)) with (S (Z.to_nat (count q - 1))) by lia.
  simpl. rewrite Z.add_0_r, Z.rem_small by lia. reflexivity.
Qed.

Lemma run_queue_spec (ops : list QOp) (q : Queue) :
  queue_wf q ->
  exists popped qf, run_queue q ops = Ok (popped, qf) /\ queue_wf qf /\
    popped ++ contents qf = contents q ++ pushed ops /\ capacity q <= capacity qf.
Proof.
  revert q. induction ops as [|[e|] ops IH]; intros q Hwf; simpl.
  - exists [], q. rewrite app_nil_r. split; [reflexivity|]. split; [exact Hwf|].
    split; [reflexivity|lia].
  - destruct (Push_spec q e Hwf) as (q1 & -> & Hwf1 & Hc1 & Hcap1). simpl.
    destruct (IH q1 Hwf1) as (popped & qf & -> & Hwff & Hcf & Hcapf).
    exists popped, qf. split; [reflexivity|]. split; [exact Hwff|]. split; [|lia].
    rewrite Hcf, Hc1, <- app_assoc. reflexivity.
  - destruct (Pop_spec q Hwf) as (r & q1 & -> & Hwf1 & Hcap1 & Hnone & Hsome). simpl.
    destruct (IH q1 Hwf1) as (popped & qf & -> & Hwff & Hcf & Hcapf). simpl.
    destruct r as [e|].
    + exists (e :: popped), qf. split; [reflexivity|]. split; [exact Hwff|].
      split; [|lia].
      rewrite (Hsome e eq_refl). simpl. rewrite Hcf. reflexivity.
    + exists popped, qf. rewrite (Hnone eq_refl) in Hcf, Hcapf.
      split; [reflexivity|]. split; [exact Hwff|]. split; [exact Hcf|exact Hcapf].
Qed.

Lemma Create_wf : queue_wf Create.
Proof. unfold queue_wf, Create, InitialCapacity; simpl; lia. Qed.

Lemma contents_nil_iff (q : Queue) : queue_wf q -> contents q = [] <-> count q = 0.
Proof.
  intros Hwf. split; intros H.
  - pose proof (contents_length q) as L. rewrite H in L. simpl in L.
    destruct Hwf as (_ & _ & _ & ?). lia.
  - apply length_zero_iff_nil. rewrite contents_length, H. reflexivity.
Qed.

Lemma contents_single_iff (q : Queue) (e : FileChange) :
  queue_wf q -> contents q = [e] <-> count q = 1 /\ data q (front_index q) = e.
Proof.
  intros Hwf. split.
  - intros H. pose proof (contents_length q) as L. rewrite H in L. simpl in L.
    pose proof Hwf as (_ & _ & _ & ?).
    assert (count q = 1) by lia. split; [assumption|].
    rewrite (contents_head q Hwf) in H by lia. congruence.
  - intros [Hc He]. rewrite (contents_head q Hwf) by lia.
    unfold contents. rewrite Hc. simpl. congruence.
Qed.

Lemma Pop_result_spec (q : Queue) :
  queue_wf q ->
  exists r q', Pop q = Ok (r, q') /\ queue_wf q' /\
    (r = None <-> (contents q = [] \/ exists e, contents q = [e] /\ action e = RenamedFrom)) /\
    (forall e, r = Some e -> contents q = e :: contents q').
Proof.
  intros Hwf. destruct (Pop_spec q Hwf) as (r & q' & E & Hwf' & _ & Hn & Hs).
  exists r, q'. split; [exact E|]. split; [exact Hwf'|]. split; [|exact Hs].
  rewrite (contents_nil_iff q Hwf).
  unfold Pop in E.
  destruct (negb (count q =? 0) && _) eqn:B.
  - destruct (rem_s32 _ _); simpl in E; [|discriminate].
    injection E as <- _. split; [discriminate|].
    intros [H | (e & He & Ha)].
    + rewrite H in B. discriminate.
    + apply (contents_single_iff q e Hwf) in He as [Hc Hd].
      rewrite Hc, Hd, Ha in B. discriminate.
  - injection E as <- _. split; [|reflexivity]. intros _.
    apply andb_false_iff in B as [B | B]; apply negb_false_iff in B.
    + left. apply Z.eqb_eq. exact B.
    + apply andb_true_iff in B as [B1 B2]. apply Z.eqb_eq in B1.
      apply EFileAction_eqb_eq in B2.
      right. exists (data q (front_index q)). split; [|exact B2].
      apply contents_single_iff; auto.
Qed.

(* ------------------------------------------------------------------ *)
(** ** Claims about the Event Queue *)

(** C1: FIFO order of the Event Queue across growth.  Every run of [Push]
    and [Pop] calls from [Create] pops records in push order (what was popped
    followed by what is still queued is exactly what was pushed); the
    invariant [0 <= count <= capacity], [0 <= front < capacity] holds
    throughout and the capacity never decreases; [Grow] on a full queue
    doubles the capacity, resets the front to 0, keeps [count] and the
    logical contents [data[(front + i) % capacity]], and copies nothing past
    [count]; [Push] appends one record and [Pop] takes the front one. *)
Theorem queue_fifo_across_growth :
  (forall ops : list QOp, exists popped qf,
      run_queue Create ops = Ok (popped, qf) /\
      popped ++ contents qf = pushed ops /\ queue_wf qf /\
      capacity Create <= capacity qf) /\
  (forall q : Queue, queue_wf q -> count q = capacity q ->
      exists q', Grow q = Ok q' /\ queue_wf q' /\
        capacity q' = 2 * capacity q /\ front_index q' = 0 /\ count q' = count q /\
        contents q' = contents q /\ (forall i, count q <= i -> data q' i = uninit i)) /\
  (forall (q : Queue) (e : FileChange), queue_wf q ->
      exists q', Push q e = Ok q' /\ queue_wf q' /\
        contents q' = contents q ++ [e] /\ capacity q <= capacity q') /\
  (forall q : Queue, queue_wf q ->
      exists r q', Pop q = Ok (r, q') /\ queue_wf q' /\ capacity q' = capacity q /\
        (r = None -> q' = q) /\ (forall e, r = Some e -> contents q = e :: contents q')).
Proof.
  split; [|split; [|split]].
  - intros ops. destruct (run_queue_spec ops Create Create_wf)
      as (popped & qf & E & Hwf & Hc & Hcap).
    exists popped, qf. split; [exact E|]. split; [|split; assumption].
    rewrite Hc. reflexivity.
  - intros q Hwf Hfull.
    destruct (Grow_spec q Hwf) as (q' & E & Hv & Hc & Hf & Hn & Hct & Hrest).
    exists q'. split; [exact E|]. split.
    + destruct Hwf as (? & ? & ? & ?). unfold queue_wf. split; [exact Hv|lia].
    + repeat split; assumption.
  - exact Push_spec.
  - exact Pop_spec.
Qed.

Lemma queue_fifo_across_growth_witness :
  queue_wf wrapped_full_queue /\
  exists q', Grow wrapped_full_queue = Ok q' /\ queue_wf q' /\
    capacity q' = 4 /\ front_index q' = 0 /\ count q' = 2 /\
    contents q' = contents wrapped_full_queue /\
    (forall i, 2 <= i -> data q' i = uninit i).
Proof.
  assert (Hwf : queue_wf wrapped_full_queue)
    by (unfold queue_wf, wrapped_full_queue; simpl; split; [reflexivity|lia]).
  split; [exact Hwf|].
  destruct (proj1 (proj2 queue_fifo_across_growth) wrapped_full_queue Hwf eq_refl)
    as (q' & E & Hwf' & Hc & Hf & Hn & Hct & Hrest).
  exists q'. split; [exact E|]. split; [exact Hwf'|].
  split; [exact Hc|]. split; [exact Hf|]. split; [exact Hn|].
  split; [exact Hct|exact Hrest].
Defined.

(** C2: the rename-pairing rule of [Pop].  On a well-formed queue, [Pop]
    returns false exactly when the queue is empty or holds a single
    [RenamedFrom] record, and otherwise returns its front record and removes
    it.  A lone [RenamedFrom] record is withheld; after one more [Push] the
    next [Pop] returns that [RenamedFrom] record. *)
Theorem Pop_rename_pairing :
  (forall q : Queue, queue_wf q ->
      exists r q', Pop q = Ok (r, q') /\
        (r = None <-> (contents q = [] \/
                       exists e, contents q = [e] /\ action e = RenamedFrom)) /\
        (forall e, r = Some e -> contents q = e :: contents q')) /\
  (forall (q : Queue) (x y : FileChange), queue_wf q -> contents q = [x] ->
      action x = RenamedFrom ->
      Pop q = Ok (None, q) /\
      exists q', Push q y = Ok q' /\ exists q'', Pop q' = Ok (Some x, q'')).
Proof.
  split.
  - intros q Hwf. destruct (Pop_result_spec q Hwf) as (r & q' & E & _ & Hn & Hs).
    exists r, q'. split; [exact E|]. split; assumption.
  - intros q x y Hwf Hx Ha.
    destruct (Pop_result_spec q Hwf) as (r & q1 & E & _ & Hn & Hs).
    assert (r = None) as ->.
    { apply Hn. right. exists x. split; assumption. }
    assert (q1 = q) as ->.
    { destruct (Pop_spec q Hwf) as (r' & q2 & E' & _ & _ & Hn' & _).
      rewrite E in E'. injection E' as <- <-. apply Hn'. reflexivity. }
    split; [exact E|].
    destruct (Push_spec q y Hwf) as (q' & Ep & Hwf' & Hc' & _).
    exists q'. split; [exact Ep|].
    rewrite Hx in Hc'. simpl in Hc'.
    destruct (Pop_result_spec q' Hwf') as (r & q'' & E2 & _ & Hn2 & Hs2).
    destruct r as [e|].
    + exists q''. rewrite E2. specialize (Hs2 e eq_refl).
      rewrite Hc' in Hs2. injection Hs2 as <- _. reflexivity.
    + exfalso. destruct (proj1 Hn2 eq_refl) as [H | (e & H & _)];
        rewrite Hc' in H; discriminate.
Qed.

Lemma Pop_rename_pairing_witness :
  queue_wf lone_rename_queue /\ contents lone_rename_queue = [renamed_from_change] /\
  Pop lone_rename_queue = Ok (None, lone_rename_queue) /\
  exists q', Push lone_rename_queue renamed_to_change = Ok q' /\
    exists q'', Pop q' = Ok (Some renamed_from_change, q'').
Proof.
  assert (Hwf : queue_wf lone_rename_queue)
    by (unfold queue_wf, lone_rename_queue; simpl; split; [reflexivity|lia]).
  assert (Hc : contents lone_rename_queue = [renamed_from_change]) by reflexivity.
  split; [exact Hwf|]. split; [exact Hc|].
  exact (proj2 Pop_rename_pairing lone_rename_queue renamed_from_change renamed_to_change
           Hwf Hc eq_refl).
Defined.

(* ------------------------------------------------------------------ *)
(** ** Lemmas on the decoder *)

Lemma list_strong_ind {A : Type} (P : list A -> Prop) :
  (forall l, (forall l', (length l' < length l)%nat -> P l') -> P l) -> forall l, P l.
Proof.
  intros H l. remember (length l) as n eqn:En.
  revert l En. induction n as [n IH] using lt_wf_ind. intros l ->.
  apply H. intros l' Hl'. apply (IH (length l')); auto.
Qed.

Lemma utf8_of_utf16_cons (u : Z) (rest : list Z) :
  utf8_of_utf16 (u :: rest) =
    if is_high_surrogate u then
      match rest with
      | l :: rest' =>
          if is_low_surrogate l then
            utf8_of_code_point
              (65536 + Z.shiftl (u - 55296) 10 + (l - 56320)) ++ utf8_of_utf16 rest'
          else utf8_of_code_point REPLACEMENT_CHARACTER ++ utf8_of_utf16 rest
      | [] => utf8_of_code_point REPLACEMENT_CHARACTER
      end
    else if is_low_surrogate u then
      utf8_of_code_point REPLACEMENT_CHARACTER ++ utf8_of_utf16 rest
    else utf8_of_code_point u ++ utf8_of_utf16 rest.
Proof. reflexivity. Qed.

Lemma utf8_of_utf16_app_nul (l : list Z) :
  utf8_of_utf16 (l ++ [0]) = utf8_of_utf16 l ++ [0].
Proof.
  induction l as [l IH] using list_strong_ind.
  destruct l as [|u rest]; [reflexivity|].
  cbn [app]. rewrite !utf8_of_utf16_cons.
  destruct (is_high_surrogate u).
  - destruct rest as [|l rest'].
    + reflexivity.
    + cbn [app]. destruct (is_low_surrogate l).
      * rewrite IH by (simpl; lia). rewrite app_assoc. reflexivity.
      * replace (l :: rest' ++ [0]) with ((l :: rest') ++ [0]) by reflexivity.
        rewrite IH by (simpl; lia). rewrite app_assoc. reflexivity.
  - destruct (is_low_surrogate u); rewrite IH by (simpl; lia); rewrite app_assoc;
      reflexivity.
Qed.

Lemma utf8_of_code_point_length (c : Z) :
  c < 65536 -> (length (utf8_of_code_point c) <= 3)%nat.
Proof.
  intros H. unfold utf8_of_code_point.
  destruct (c <? 128); [simpl; lia|].
  destruct (c <? 2048); [simpl; lia|].
  rewrite (proj2 (Z.ltb_lt c 65536) H). simpl. lia.
Qed.

Lemma utf8_of_utf16_length (l : list Z) :
  Forall utf16_unit l -> (length (utf8_of_utf16 l) <= 3 * length l)%nat.
Proof.
  induction l as [l IH] using list_strong_ind. intros Hl.
  destruct l as [|u rest]; [simpl; lia|].
  inversion Hl as [|? ? Hu Hrest]; subst. unfold utf16_unit in Hu.
  rewrite utf8_of_utf16_cons.
  assert (Hr : (length (utf8_of_code_point REPLACEMENT_CHARACTER) <= 3)%nat)
    by (apply utf8_of_code_point_length; unfold REPLACEMENT_CHARACTER; lia).
  pose proof (IH rest ltac:(simpl; lia) Hrest) as IHr.
  destruct (is_high_surrogate u).
  - destruct rest as [|l rest'].
    + simpl. lia.
    + inversion Hrest as [|? ? Hl1 Hrest']; subst.
      destruct (is_low_surrogate l).
      * rewrite length_app.
        assert (length (utf8_of_code_point
                  (65536 + Z.shiftl (u - 55296) 10 + (l - 56320))) <= 4)%nat.
        { unfold utf8_of_code_point.
          repeat match goal with |- context [if ?b then _ else _] => destruct b end;
          simpl; lia. }
        pose proof (IH rest' ltac:(simpl; lia) Hrest'). simpl. lia.
      * rewrite length_app. simpl in *. lia.
  - destruct (is_low_surrogate u); rewrite length_app; simpl; [lia|].
    pose proof (utf8_of_code_point_length u ltac:(lia)). lia.
Qed.

Lemma nth_pred_last (l : list Z) :
  l <> [] -> last l = Some (nth (length l - 1) l 0).
Proof.
  intros Hne. destruct (exists_last Hne) as (l' & a & ->).
  rewrite last_snoc, length_app. simpl.
  replace (length l' + 1 - 1)%nat with (length l') by lia.
  rewrite nth_middle. reflexivity.
Qed.

Lemma combine_path_spec (directory_path : list Z) (directory_path_length : Z)
    (event : NotifyEntry) :
  1 <= directory_path_length ->
  (Z.to_nat directory_path_length <= length directory_path)%nat ->
  0 <= FileNameLength event ->
  (Z.to_nat (FileNameLength event / 2) <= length (FileName event))%nat ->
  let combined := composed_path (firstn (Z.to_nat directory_path_length) directory_path)
                    (firstn (Z.to_nat (FileNameLength event / 2)) (FileName event)) in
  Z.of_nat (length combined) < MAX_PATH ->
  combine_path directory_path directory_path_length event
  = Ok (combined, Z.of_nat (length combined)).
Proof.
  intros H1 H2 H3 H4 combined H5. subst combined.
  set (base := firstn (Z.to_nat directory_path_length) directory_path) in *.
  set (name := firstn (Z.to_nat (FileNameLength event / 2)) (FileName event)) in *.
  assert (Lb : length base = Z.to_nat directory_path_length)
    by (apply firstn_length_le; exact H2).
  assert (Ln : length name = Z.to_nat (FileNameLength event / 2))
    by (apply firstn_length_le; exact H4).
  assert (Hne : base <> []) by (intros E; rewrite E in Lb; simpl in Lb; lia).
  pose proof (nth_pred_last base Hne) as Hlast.
  replace (length base - 1)%nat with (Z.to_nat (directory_path_length - 1)) in Hlast by lia.
  assert (0 <= FileNameLength event / 2) by (apply Z.div_pos; lia).
  unfold composed_path in *. rewrite Hlast in *.
  unfold combine_path, assert. fold base.
  rewrite !length_app, Lb, Ln in H5.
  destruct (Z.eqb_spec (nth (Z.to_nat (directory_path_length - 1)) base 0) BACKSLASH)
    as [E|E]; simpl in H5.
  - rewrite (proj2 (Z.leb_le 0 _)), (proj2 (Z.leb_le _ MAX_PATH)),
      (proj2 (Z.leb_le 1 _)) by lia. simpl.
    rewrite (proj2 (Z.leb_le _ MAX_PATH)), (proj2 (Z.ltb_lt _ MAX_PATH)) by lia. simpl.
    fold name. f_equal. f_equal. rewrite ?length_app; cbn [length]; rewrite ?Lb, ?Ln; lia.
  - rewrite (proj2 (Z.leb_le 0 _)), (proj2 (Z.leb_le _ MAX_PATH)),
      (proj2 (Z.leb_le 1 _)) by lia. simpl.
    rewrite (proj2 (Z.ltb_lt _ MAX_PATH)) by lia. simpl.
    rewrite (proj2 (Z.leb_le _ MAX_PATH)), (proj2 (Z.ltb_lt _ MAX_PATH)) by lia. simpl.
    fold name. rewrite <- app_assoc. f_equal. f_equal.
    rewrite ?length_app; cbn [length]; rewrite ?Lb, ?Ln; lia.
Qed.

(** A combined path of [MAX_PATH] units or more does not fit the stack
    array [combined_path[MAX_PATH]] with its terminator. *)
Lemma combine_path_overrun (directory_path : list Z) (directory_path_length : Z)
    (event : NotifyEntry) :
  1 <= directory_path_length ->
  (Z.to_nat directory_path_length <= length directory_path)%nat ->
  0 <= FileNameLength event ->
  (Z.to_nat (FileNameLength event / 2) <= length (FileName event))%nat ->
  let combined := composed_path (firstn (Z.to_nat directory_path_length) directory_path)
                    (firstn (Z.to_nat (FileNameLength event / 2)) (FileName event)) in
  MAX_PATH <= Z.of_nat (length combined) ->
  combine_path directory_path directory_path_length event = Abort.
Proof.
  intros H1 H2 H3 H4 combined H5. subst combined.
  set (base := firstn (Z.to_nat directory_path_length) directory_path) in *.
  set (name := firstn (Z.to_nat (FileNameLength event / 2)) (FileName event)) in *.
  assert (Lb : length base = Z.to_nat directory_path_length)
    by (apply firstn_length_le; exact H2).
  assert (Ln : length name = Z.to_nat (FileNameLength event / 2))
    by (apply firstn_length_le; exact H4).
  assert (Hne : base <> []) by (intros E; rewrite E in Lb; simpl in Lb; lia).
  pose proof (nth_pred_last base Hne) as Hlast.
  replace (length base - 1)%nat with (Z.to_nat (directory_path_length - 1)) in Hlast by lia.
  assert (0 <= FileNameLength event / 2) by (apply Z.div_pos; lia).
  unfold composed_path in H5. rewrite Hlast in H5.
  rewrite !length_app, Lb, Ln in H5.
  unfold combine_path, assert. fold base.
  destruct (Z.eqb_spec (nth (Z.to_nat (directory_path_length - 1)) base 0) BACKSLASH)
    as [E|E]; cbn [length negb] in H5 |- *;
  repeat (match goal with |- context [if ?b then _ else _] =>
            destruct b eqn:?; cbn [rbind] end);
  try reflexivity; exfalso;
  repeat match goal with
         | H : (_ && _) = true |- _ => apply andb_true_iff in H as [? ?]
         | H : (_ <=? _) = true |- _ => apply Z.leb_le in H
         | H : (_ <? _) = true |- _ => apply Z.ltb_lt in H
         end;
  lia.
Qed.

Lemma drop_repeat_Z (k n : nat) (x : Z) : drop k (repeat x n) = repeat x (n - k).
Proof.
  revert n. induction k as [|k IH]; intros n; [rewrite Nat.sub_0_r; reflexivity|].
  destruct n as [|n]; [reflexivity|]. simpl. apply IH.
Qed.

(** The path array after writing [out] (terminator included) into a zeroed
    array: [out] followed by zero bytes. *)
Lemma write_bytes_zero (out : list Z) :
  (length out <= path_bytes)%nat ->
  write_bytes (path zero_change) out = out ++ repeat 0 (path_bytes - length out).
Proof.
  intros H. unfold write_bytes, zero_change. cbn [path]. rewrite drop_repeat_Z. reflexivity.
Qed.

Lemma decode_entry_spec (directory_path : list Z) (directory_path_length : Z)
    (event : NotifyEntry) :
  1 <= directory_path_length ->
  (Z.to_nat directory_path_length <= length directory_path)%nat ->
  0 <= FileNameLength event ->
  (Z.to_nat (FileNameLength event / 2) <= length (FileName event))%nat ->
  Forall utf16_unit directory_path -> Forall utf16_unit (FileName event) ->
  let combined := composed_path (firstn (Z.to_nat directory_path_length) directory_path)
                    (firstn (Z.to_nat (FileNameLength event / 2)) (FileName event)) in
  Z.of_nat (length combined) < MAX_PATH ->
  exists c, decode_entry directory_path directory_path_length event = Ok c /\
    path c = utf8_of_utf16 combined ++ [0] ++
             repeat 0 (path_bytes - length (utf8_of_utf16 combined) - 1) /\
    path_length c = Z.of_nat (length (utf8_of_utf16 combined)) /\
    action c = action_of_code (Action event) /\
    creation_time c = CreationTime event /\ size c = FileSize event /\
    attributes c = FileAttributes event /\
    is_directory c = negb (Z.land (FileAttributes event) FILE_ATTRIBUTE_DIRECTORY =? 0).
Proof.
  intros H1 H2 H3 H4 Hd Hn combined H5.
  unfold decode_entry. rewrite (combine_path_spec _ _ _ H1 H2 H3 H4 H5). simpl.
  fold combined.
  assert (Hu : Forall utf16_unit combined).
  { unfold combined, composed_path. apply Forall_app; split; [apply Forall_take, Hd|].
    apply Forall_app; split; [|apply Forall_take, Hn].
    destruct (last _) as [u|]; [destruct (u =? BACKSLASH)|];
      repeat constructor; unfold utf16_unit, BACKSLASH; lia. }
  pose proof (utf8_of_utf16_length combined Hu) as Hlen.
  unfold WideCharToMultiByte.
  rewrite firstn_all2
    by (rewrite length_app; simpl; lia).
  rewrite utf8_of_utf16_app_nul, length_app. simpl length.
  rewrite (proj2 (Z.leb_le _ _)) by (unfold MAX_PATH in *; lia).
  eexists. split; [reflexivity|].
  cbn [path path_length action creation_time size attributes is_directory].
  rewrite write_bytes_zero
    by (rewrite length_app; simpl length; unfold path_bytes, MAX_PATH in *; lia).
  rewrite length_app. simpl length. rewrite <- app_assoc.
  split; [do 3 f_equal; lia|].
  split; [lia|]. repeat split.
Qed.

Lemma decode_loop_pushes (fuel : nat) (buffer : NotifyBuffer) (directory_path : list Z)
    (directory_path_length offset : Z) (q q' : Queue) :
  queue_wf q ->
  decode_loop fuel buffer directory_path directory_path_length offset q = Ok q' ->
  queue_wf q' /\ exists rs, rs <> [] /\ contents q' = contents q ++ rs.
Proof.
  revert offset q. induction fuel as [|fuel IH]; intros offset q Hwf E; simpl in E;
    [discriminate|].
  destruct (read_entry buffer offset) as [event|]; simpl in E; [|discriminate].
  destruct (decode_entry directory_path directory_path_length event) as [c|];
    simpl in E; [|discriminate].
  destruct (Push_spec q c Hwf) as (q1 & Ep & Hwf1 & Hc1 & _).
  rewrite Ep in E. simpl in E.
  destruct (NextEntryOffset event =? 0).
  - injection E as <-. split; [exact Hwf1|]. exists [c]. split; [discriminate|exact Hc1].
  - destruct (IH _ _ Hwf1 E) as (Hwf' & rs & Hne & Hc').
    split; [exact Hwf'|]. exists (c :: rs). split; [discriminate|].
    rewrite Hc', Hc1, <- app_assoc. reflexivity.
Qed.

(* ------------------------------------------------------------------ *)
(** ** Claims about the Notification Decoder *)

(** C6 (code bug): path composition.  For an entry whose combined path
    (the directory path, a backslash unless the directory path already
    ends in one, then the file name) is shorter than [MAX_PATH] UTF-16
    units, the record's path is the UTF-8 encoding of that combined path,
    terminated and zero padded, and [path_length] is its length;
    "C:\data" and "C:\data\" with "a.txt" both give "C:\data\a.txt".  A
    combined path of [MAX_PATH] units or more overruns the stack array
    [char16_t combined_path[MAX_PATH]] (undefined behaviour); a file with a
    253-letter name in "C:\data" gives such a 261-unit path. *)
Theorem decoded_path_composition :
  (forall (directory_path : list Z) (directory_path_length : Z) (event : NotifyEntry),
     1 <= directory_path_length ->
     (Z.to_nat directory_path_length <= length directory_path)%nat ->
     0 <= FileNameLength event ->
     (Z.to_nat (FileNameLength event / 2) <= length (FileName event))%nat ->
     Forall utf16_unit directory_path -> Forall utf16_unit (FileName event) ->
     let combined :=
       composed_path (firstn (Z.to_nat directory_path_length) directory_path)
         (firstn (Z.to_nat (FileNameLength event / 2)) (FileName event)) in
     Z.of_nat (length combined) < MAX_PATH ->
     exists c, decode_entry directory_path directory_path_length event = Ok c /\
       path c = utf8_of_utf16 combined ++ [0] ++
                repeat 0 (path_bytes - length (utf8_of_utf16 combined) - 1) /\
       path_length c = Z.of_nat (length (utf8_of_utf16 combined))) /\
  (forall (directory_path : list Z) (directory_path_length : Z) (event : NotifyEntry),
     1 <= directory_path_length ->
     (Z.to_nat directory_path_length <= length directory_path)%nat ->
     0 <= FileNameLength event ->
     (Z.to_nat (FileNameLength event / 2) <= length (FileName event))%nat ->
     let combined :=
       composed_path (firstn (Z.to_nat directory_path_length) directory_path)
         (firstn (Z.to_nat (FileNameLength event / 2)) (FileName event)) in
     MAX_PATH <= Z.of_nat (length combined) ->
     decode_entry directory_path directory_path_length event = Abort) /\
  combine_path (wide "C:\data"%string) 7 (entry_for (wide "a.txt"%string) FILE_ACTION_ADDED 0)
    = Ok (wide "C:\data\a.txt"%string, 13) /\
  combine_path (wide "C:\data\"%string) 8 (entry_for (wide "a.txt"%string) FILE_ACTION_ADDED 0)
    = Ok (wide "C:\data\a.txt"%string, 13) /\
  Z.of_nat (length (composed_path (wide "C:\data"%string) (repeat 97 253))) = 261 /\
  ProcessNotification (Some (two_entry_buffer (entry_for (repeat 97 253) FILE_ACTION_ADDED 0)
                                              (entry_for [] 0 0)))
    (wide "C:\data"%string) 7 Create = Abort.
Proof.
  split; [|split; [|split; [reflexivity|split; [reflexivity|split; vm_compute; reflexivity]]]].
  - intros directory_path directory_path_length event H1 H2 H3 H4 Hd Hn combined H5.
    destruct (decode_entry_spec directory_path directory_path_length event H1 H2 H3 H4 Hd Hn H5)
      as (c & E & Hp & Hl & _).
    exists c. split; [exact E|]. split; assumption.
  - intros directory_path directory_path_length event H1 H2 H3 H4 combined H5.
    unfold decode_entry.
    rewrite (combine_path_overrun directory_path directory_path_length event H1 H2 H3 H4 H5).
    reflexivity.
Qed.

Lemma decoded_path_composition_witness :
  (exists c, decode_entry (wide "C:\data"%string) 7 (entry_for (wide "a.txt"%string) FILE_ACTION_ADDED 0) = Ok c /\
    path c = utf8_of_utf16 (wide "C:\data\a.txt"%string) ++ [0] ++
             repeat 0 (path_bytes - length (utf8_of_utf16 (wide "C:\data\a.txt"%string)) - 1) /\
    path_length c = 13) /\
  decode_entry (wide "C:\data"%string) 7 (entry_for (repeat 97 253) FILE_ACTION_ADDED 0) = Abort.
Proof.
  split.
  - apply (proj1 decoded_path_composition); try (vm_compute; reflexivity);
      try (vm_compute; congruence); try lia;
      repeat constructor; unfold utf16_unit; lia.
  - apply (proj1 (proj2 decoded_path_composition)); try (vm_compute; reflexivity);
      try (vm_compute; congruence); try lia; vm_compute; congruence.
Defined.

(** C9: action mapping.  The five native action codes map to Added,
    Removed, Modified, RenamedFrom and RenamedTo, every other code maps to
    None, the record's action is the mapped code, and the action code never
    decides whether an entry can be decoded. *)
Theorem action_mapping :
  action_of_code FILE_ACTION_ADDED = Added /\
  action_of_code FILE_ACTION_REMOVED = Removed /\
  action_of_code FILE_ACTION_MODIFIED = Modified /\
  action_of_code FILE_ACTION_RENAMED_OLD_NAME = RenamedFrom /\
  action_of_code FILE_ACTION_RENAMED_NEW_NAME = RenamedTo /\
  (forall code, code <> FILE_ACTION_ADDED -> code <> FILE_ACTION_REMOVED ->
     code <> FILE_ACTION_MODIFIED -> code <> FILE_ACTION_RENAMED_OLD_NAME ->
     code <> FILE_ACTION_RENAMED_NEW_NAME -> action_of_code code = None_) /\
  (forall directory_path directory_path_length event c,
     decode_entry directory_path directory_path_length event = Ok c ->
     action c = action_of_code (Action event)) /\
  (forall directory_path directory_path_length event code,
     (decode_entry directory_path directory_path_length (with_action event code) = Abort <->
      decode_entry directory_path directory_path_length event = Abort)).
Proof.
  split; [reflexivity|]. split; [reflexivity|]. split; [reflexivity|].
  split; [reflexivity|]. split; [reflexivity|]. split; [|split].
  - intros code H1 H2 H3 H4 H5. unfold action_of_code.
    rewrite (proj2 (Z.eqb_neq _ _) H1), (proj2 (Z.eqb_neq _ _) H2),
      (proj2 (Z.eqb_neq _ _) H3), (proj2 (Z.eqb_neq _ _) H4),
      (proj2 (Z.eqb_neq _ _) H5). reflexivity.
  - intros directory_path directory_path_length event c E. unfold decode_entry in E.
    destruct (combine_path _ _ _) as [[cp len]|]; simpl in E; [|discriminate].
    destruct (WideCharToMultiByte _ _ _). injection E as <-. reflexivity.
  - intros directory_path directory_path_length event code.
    unfold decode_entry.
    replace (combine_path directory_path directory_path_length (with_action event code))
      with (combine_path directory_path directory_path_length event) by reflexivity.
    destruct (combine_path _ _ _) as [[cp len]|]; simpl; [|tauto].
    destruct (WideCharToMultiByte _ _ _). split; discriminate.
Qed.

Lemma action_mapping_witness :
  action_of_code 9 = None_ /\
  decode_entry (wide "C:\data"%string) 7 (entry_for (wide "a.txt"%string) 9 0) <> Abort.
Proof.
  split.
  - apply (proj1 (proj2 (proj2 (proj2 (proj2 (proj2 action_mapping)))))); discriminate.
  - intros E. apply (proj2 (proj2 (proj2 (proj2 (proj2 (proj2 (proj2 action_mapping))))))
      (wide "C:\data"%string) 7 (entry_for (wide "a.txt"%string) 1 0) 9) in E.
    vm_compute in E. discriminate.
Defined.

(** C10: a non-null buffer always yields at least one record: whenever
    [ProcessNotification] returns on a buffer, it has appended a non-empty
    list of records to the queue, the first entry being pushed before the
    loop test. *)
Theorem ProcessNotification_nonempty :
  forall (buffer : NotifyBuffer) (directory_path : list Z) (directory_path_length : Z)
         (q q' : Queue),
    queue_wf q ->
    ProcessNotification (Some buffer) directory_path directory_path_length q = Ok q' ->
    exists rs, rs <> [] /\ contents q' = contents q ++ rs.
Proof.
  intros buffer directory_path directory_path_length q q' Hwf E.
  unfold ProcessNotification in E. apply decode_loop_pushes in E as [_ H]; [exact H|exact Hwf].
Qed.

Lemma ProcessNotification_nonempty_witness :
  exists q', ProcessNotification (Some sample_buffer) (wide "C:\data"%string) 7 Create = Ok q' /\
    exists rs, rs <> [] /\ contents q' = contents Create ++ rs.
Proof.
  assert (E : ProcessNotification (Some sample_buffer) (wide "C:\data"%string) 7 Create
              = Ok (ok_or Create (ProcessNotification (Some sample_buffer)
                                    (wide "C:\data"%string) 7 Create)))
    by (vm_compute; reflexivity).
  eexists. split; [exact E|].
  exact (ProcessNotification_nonempty sample_buffer (wide "C:\data"%string) 7 Create _
           Create_wf E).
Defined.

Lemma overflow_change_short (directory_path : list Z) (directory_path_length : Z) :
  let out := utf8_of_utf16 (firstn (Z.to_nat directory_path_length) directory_path) in
  Z.of_nat (length out) < MAX_PATH * 3 ->
  exists c, overflow_change directory_path directory_path_length = Ok c /\
    path c = out ++ repeat 0 (path_bytes - length out) /\
    path_length c = Z.of_nat (length out) /\
    action c = TooManyChanges /\ is_directory c = true.
Proof.
  intros out H. unfold overflow_change, WideCharToMultiByte. fold out.
  destruct (Z.leb_spec (Z.of_nat (length out)) (MAX_PATH * 3)) as [_|]; [|lia].
  cbv beta iota zeta. unfold set_path_byte, assert. cbn [path_length].
  rewrite (proj2 (Z.leb_le 0 (Z.of_nat (length out))) ltac:(lia)), (proj2 (Z.ltb_lt _ _) H).
  cbn [andb rbind]. eexists. split; [reflexivity|].
  cbn [path path_length action is_directory].
  rewrite write_bytes_zero by (unfold path_bytes, MAX_PATH in *; lia).
  rewrite Nat2Z.id.
  split; [|split; [reflexivity|split; reflexivity]].
  apply list_insert_id. rewrite lookup_app_r by lia. rewrite Nat.sub_diag.
  destruct (path_bytes - length out)%nat eqn:E; [unfold path_bytes, MAX_PATH in *; lia|reflexivity].
Qed.

Lemma overflow_change_long (directory_path : list Z) (directory_path_length : Z) :
  MAX_PATH * 3 < Z.of_nat (length (utf8_of_utf16
                   (firstn (Z.to_nat directory_path_length) directory_path))) ->
  exists c, overflow_change directory_path directory_path_length = Ok c /\
    path c !! 0%nat = Some 0 /\ path_length c = 0 /\
    action c = TooManyChanges /\ is_directory c = true.
Proof.
  intros H. unfold overflow_change, WideCharToMultiByte.
  rewrite (proj2 (Z.leb_gt _ _) H).
  cbv beta iota zeta. unfold set_path_byte, assert. cbn [path_length andb rbind].
  eexists. split; [reflexivity|]. repeat split.
Qed.

(** [WideCharToMultiByte] fills the whole array, and the terminator is
    written one byte past its end. *)
Lemma overflow_change_exact (directory_path : list Z) (directory_path_length : Z) :
  Z.of_nat (length (utf8_of_utf16
              (firstn (Z.to_nat directory_path_length) directory_path))) = MAX_PATH * 3 ->
  overflow_change directory_path directory_path_length = Abort.
Proof.
  intros H. unfold overflow_change, WideCharToMultiByte.
  rewrite H, Z.leb_refl. cbv beta iota zeta. unfold set_path_byte, assert.
  cbn [path_length]. rewrite Z.ltb_irrefl, andb_false_r. reflexivity.
Qed.

(** A completion without error on a live request: re-arm, then decode the
    other buffer, or a null buffer when no byte was transferred. *)
Lemma NotificationCompletion_live (w : Watcher) (p bytes : Z) (r : ReadChangesRequest) :
  heap w !! p = Some r -> should_terminate w = false ->
  NotificationCompletion w p 0 bytes =
    (let w1 := set_heap w (<[p := set_buffer_index r (Z.lxor (buffer_index r) 1)
                   (if handle_is_open w (directory r) then Some (buffer_index r) else None)]>
                   (heap w)) in
     let! q := ProcessNotification
                 (if bytes =? 0 then None else Some (rq_buffers r (Z.lxor (buffer_index r) 1)))
                 (rq_path r) (rq_path_length r) (queue w) in
     Ok (set_queue w1 q)).
Proof.
  intros Hr Hst. unfold NotificationCompletion, completion_enter. unfold load at 1.
  rewrite Hr, Hst. cbn [orb andb negb Z.eqb ERROR_OPERATION_ABORTED rbind].
  unfold BeginRead, load. rewrite Hr. cbn [rbind].
  unfold completion_decode, load. cbn [heap set_heap]. rewrite lookup_insert_eq.
  cbn [rbind queue set_heap rq_path rq_path_length rq_buffers set_buffer_index].
  reflexivity.
Qed.

(** C4 (code bug): overflow.  A completion with no error and zero bytes on
    a live request (the watcher not shutting down, its handle open)
    re-arms a read on the request's current buffer and runs the decoder
    with a null buffer.  When the UTF-8 encoding of the watched directory's
    path is not exactly [MAX_PATH * 3] = 780 bytes, exactly one record is
    appended, with action TooManyChanges and is_directory true; its path is
    the directory's path (zero terminated and padded) only when the
    encoding is shorter than 780 bytes, and is empty with path_length 0
    when it is longer.  When the encoding is exactly 780 bytes the
    terminator is written past the end of the path array (undefined
    behaviour).  Openable directories of 780 and 785 bytes exist. *)
Theorem overflow_record :
  (forall (w : Watcher) (p : Z) (r : ReadChangesRequest),
     heap w !! p = Some r -> should_terminate w = false ->
     handle_is_open w (directory r) = true -> queue_wf (queue w) ->
     let out := utf8_of_utf16 (firstn (Z.to_nat (rq_path_length r)) (rq_path r)) in
     Z.of_nat (length out) <> MAX_PATH * 3 ->
     exists w' r' c, NotificationCompletion w p 0 0 = Ok w' /\
       heap w' !! p = Some r' /\ pending_read r' = Some (buffer_index r) /\
       contents (queue w') = contents (queue w) ++ [c] /\
       action c = TooManyChanges /\ is_directory c = true /\
       (Z.of_nat (length out) < MAX_PATH * 3 ->
          path c = out ++ repeat 0 (path_bytes - length out) /\
          path_length c = Z.of_nat (length out)) /\
       (MAX_PATH * 3 < Z.of_nat (length out) ->
          path c !! 0%nat = Some 0 /\ path_length c = 0)) /\
  (forall (w : Watcher) (p : Z) (r : ReadChangesRequest),
     heap w !! p = Some r -> should_terminate w = false ->
     Z.of_nat (length (utf8_of_utf16 (firstn (Z.to_nat (rq_path_length r)) (rq_path r))))
       = MAX_PATH * 3 ->
     NotificationCompletion w p 0 0 = Abort) /\
  Z.of_nat (length (utf8_of_utf16 exact_directory)) = 780 /\
  Z.of_nat (length (utf8_of_utf16 long_directory)) = 785.
Proof.
  split; [|split; [|split; reflexivity]].
  - intros w p r Hr Hst Ho Hwf out Hne.
    rewrite (NotificationCompletion_live w p 0 r Hr Hst), Ho. cbv zeta. cbn [Z.eqb].
    unfold ProcessNotification.
    assert (Hc : exists c, overflow_change (rq_path r) (rq_path_length r) = Ok c /\
              action c = TooManyChanges /\ is_directory c = true /\
              (Z.of_nat (length out) < MAX_PATH * 3 ->
                 path c = out ++ repeat 0 (path_bytes - length out) /\
                 path_length c = Z.of_nat (length out)) /\
              (MAX_PATH * 3 < Z.of_nat (length out) ->
                 path c !! 0%nat = Some 0 /\ path_length c = 0)).
    { destruct (Z.lt_total (Z.of_nat (length out)) (MAX_PATH * 3)) as [Hlt|[Heq|Hgt]];
        [|contradiction|].
      - destruct (overflow_change_short (rq_path r) (rq_path_length r) Hlt)
          as (c & E & Hp & Hl & Ha & Hd).
        exists c. repeat split; auto; intros; lia.
      - destruct (overflow_change_long (rq_path r) (rq_path_length r) Hgt)
          as (c & E & Hp & Hl & Ha & Hd).
        exists c. repeat split; auto; intros; lia. }
    destruct Hc as (c & Ec & Ha & Hd & Hshort & Hlong).
    rewrite Ec. cbn [rbind].
    destruct (Push_spec (queue w) c Hwf) as (q1 & E & _ & Hq & _).
    rewrite E. cbn [rbind].
    exists (set_queue (set_heap w (<[p := set_buffer_index r (Z.lxor (buffer_index r) 1)
                                           (Some (buffer_index r))]> (heap w))) q1).
    eexists _, c. split; [reflexivity|]. cbn [heap set_queue set_heap].
    split; [apply lookup_insert_eq|]. split; [reflexivity|]. split; [exact Hq|].
    auto.
  - intros w p r Hr Hst H.
    rewrite (NotificationCompletion_live w p 0 r Hr Hst). cbv zeta. cbn [Z.eqb].
    unfold ProcessNotification. rewrite (overflow_change_exact _ _ H). reflexivity.
Qed.

Lemma overflow_record_witness :
  (exists w' r' c, NotificationCompletion (watcher_for long_directory) 1000 0 0 = Ok w' /\
     heap w' !! 1000 = Some r' /\
     pending_read r' = Some (buffer_index (request_at (watcher_for long_directory) 1000)) /\
     contents (queue w') = contents (queue (watcher_for long_directory)) ++ [c] /\
     action c = TooManyChanges /\ is_directory c = true /\
     (Z.of_nat (length (utf8_of_utf16 long_directory)) < MAX_PATH * 3 ->
        path c = utf8_of_utf16 long_directory
                 ++ repeat 0 (path_bytes - length (utf8_of_utf16 long_directory)) /\
        path_length c = Z.of_nat (length (utf8_of_utf16 long_directory))) /\
     (MAX_PATH * 3 < Z.of_nat (length (utf8_of_utf16 long_directory)) ->
        path c !! 0%nat = Some 0 /\ path_length c = 0)) /\
  NotificationCompletion (watcher_for exact_directory) 1000 0 0 = Abort.
Proof.
  split.
  - pose proof (proj1 overflow_record (watcher_for long_directory) 1000
                  (request_at (watcher_for long_directory) 1000)) as H.
    assert (Hq : queue (watcher_for long_directory) = Create) by (vm_compute; reflexivity).
    assert (Hp : rq_path (request_at (watcher_for long_directory) 1000) = long_directory)
      by (vm_compute; reflexivity).
    assert (Hl : rq_path_length (request_at (watcher_for long_directory) 1000) = 785)
      by (vm_compute; reflexivity).
    rewrite Hp, Hl in H. rewrite firstn_all2 in H by (vm_compute; lia).
    apply H; [vm_compute; reflexivity|vm_compute; reflexivity|vm_compute; reflexivity|
              rewrite Hq; exact Create_wf|vm_compute; discriminate].
  - apply (proj1 (proj2 overflow_record) (watcher_for exact_directory) 1000
             (request_at (watcher_for exact_directory) 1000));
      vm_compute; reflexivity.
Defined.

(* ------------------------------------------------------------------ *)
(** ** Properties kept by every step of the two threads *)


Section StepPreservation.
Variable P : Watcher -> Prop.
Hypothesis P_begin : forall w, P w -> P (shutdown_begin w).
Hypothesis P_close : forall w p w', P w -> shutdown_close w p = Ok w' -> P w'.
Hypothesis P_end : forall w, P w -> P (shutdown_end w).
Hypothesis P_apc : forall w p rest w', P w -> apc_queue w = p :: rest ->
  ThreadAddDirectoryProc (set_apc_queue w rest) p = Ok w' -> P w'.
Hypothesis P_complete : forall w p err bytes filled w1, P w ->
  os_complete w p err bytes filled = Some w1 -> P w1.
Hypothesis P_enter : forall w p err bytes e w', P w ->
  completion_enter w p err bytes = Ok (e, w') -> P w'.
Hypothesis P_rearm : forall w p w', P w -> BeginRead w p = Ok w' -> P w'.
Hypothesis P_decode : forall w p slot ov w', P w ->
  completion_decode w p slot ov = Ok w' -> P w'.

Lemma sys_step_pres (s : System) (l : Label) (s' : System) :
  P (sys_watcher s) -> sys_step s l = Some s' -> P (sys_watcher s').
Proof.
  intros HP E. unfold sys_step in E. cbv zeta in E. destruct (crashed s); [discriminate|].
  destruct l as [| | |p err bytes filled];
    destruct (main_pc s) as [|[|p0 rest0]| |];
    destruct (worker_pc s) as [|p1 slot1 ov1|p1 slot1 ov1|];
    try discriminate;
    repeat match goal with
    | E : (if ?b then _ else _) = Some _ |- _ => destruct b; [discriminate|]
    | E : match apc_queue ?w with _ => _ end = Some _ |- _ =>
        destruct (apc_queue w) as [|pa resta] eqn:Ea; [discriminate|]
    | E : match os_complete ?w ?p ?e ?b ?f with _ => _ end = Some _ |- _ =>
        destruct (os_complete w p e b f) as [w1|] eqn:Eo; [|discriminate]
    | E : match completion_enter ?w ?p ?e ?b with _ => _ end = Some _ |- _ =>
        destruct (completion_enter w p e b) as [[[[sl ov]|] w2]|] eqn:Ee
    end;
    injection E as <-; unfold sys_update;
    repeat match goal with
    | |- context [match ?r with Ok _ => _ | Abort => _ end] =>
        let Er := fresh "Er" in destruct r eqn:Er
    end;
    cbn [sys_watcher]; eauto.
Qed.
End StepPreservation.

(* ------------------------------------------------------------------ *)
(** ** The request list *)

Lemma BeginRead_requests (w : Watcher) (p : Z) (w' : Watcher) :
  BeginRead w p = Ok w' -> requests w' = requests w.
Proof. unfold BeginRead, load. intros H. result_cases. reflexivity. Qed.

Lemma shutdown_close_requests (w : Watcher) (p : Z) (w' : Watcher) :
  shutdown_close w p = Ok w' -> requests w' = requests w.
Proof. unfold shutdown_close, load. intros H. result_cases. reflexivity. Qed.

Lemma ThreadAddDirectoryProc_requests (w : Watcher) (p : Z) (w' : Watcher) :
  ThreadAddDirectoryProc w p = Ok w' -> requests w' = requests w.
Proof. unfold ThreadAddDirectoryProc. intros H. apply BeginRead_requests in H. exact H. Qed.

Lemma os_complete_requests (w : Watcher) (p err bytes : Z) (filled : NotifyBuffer) (w' : Watcher) :
  os_complete w p err bytes filled = Some w' -> requests w' = requests w.
Proof. unfold os_complete. intros H. result_cases. reflexivity. Qed.

Lemma completion_enter_requests (w : Watcher) (p err bytes : Z) e (w' : Watcher) :
  completion_enter w p err bytes = Ok (e, w') -> requests w' = requests w.
Proof.
  unfold completion_enter, load. intros H.
  destruct (heap w !! p); cbn [rbind] in H; [|discriminate].
  destruct (_ || _).
  - injection H as _ <-. reflexivity.
  - destruct (negb (err =? 0)); cbn in H; [discriminate|]. injection H as _ <-. reflexivity.
Qed.

Lemma completion_decode_requests (w : Watcher) (p slot : Z) (ov : bool) (w' : Watcher) :
  completion_decode w p slot ov = Ok w' -> requests w' = requests w.
Proof.
  unfold completion_decode, load. intros H.
  destruct (heap w !! p); cbn [rbind] in H; [|discriminate].
  destruct (ProcessNotification _ _ _ _); cbn in H; [|discriminate].
  injection H as <-. reflexivity.
Qed.

Lemma NotificationCompletion_requests (w : Watcher) (p err bytes : Z) (w' : Watcher) :
  NotificationCompletion w p err bytes = Ok w' -> requests w' = requests w.
Proof.
  unfold NotificationCompletion. intros H.
  destruct (completion_enter w p err bytes) as [[[[slot ov]|] w1]|] eqn:E;
    cbn [rbind] in H; [|injection H as <-|discriminate];
    apply completion_enter_requests in E; [|congruence].
  destruct (BeginRead w1 p) as [w2|] eqn:E2; cbn [rbind] in H; [|discriminate].
  apply BeginRead_requests in E2. apply completion_decode_requests in H. congruence.
Qed.

Lemma shutdown_loop_requests (w : Watcher) (current : list Z) (w' : Watcher) :
  shutdown_loop w current = Ok w' -> requests w' = requests w.
Proof.
  revert w. induction current as [|p rest IH]; intros w H; cbn [shutdown_loop] in H.
  - injection H as <-. reflexivity.
  - destruct (shutdown_close w p) as [w1|] eqn:E; cbn [rbind] in H; [|discriminate].
    apply shutdown_close_requests in E. rewrite (IH _ H). exact E.
Qed.

(* ------------------------------------------------------------------ *)
(** ** The buffer index invariant *)

Lemma lxor_toggle (i : Z) :
  i = 0 \/ i = 1 -> (Z.lxor i 1 = 0 \/ Z.lxor i 1 = 1) /\ Z.lxor (Z.lxor i 1) 1 = i /\
                    Z.lxor i 1 <> i.
Proof. intros [-> | ->]; cbn; repeat split; auto; discriminate. Qed.

Lemma BeginRead_heap_inv (w : Watcher) (p : Z) (w' : Watcher) :
  heap_inv w -> BeginRead w p = Ok w' -> heap_inv w'.
Proof.
  unfold BeginRead, load, heap_inv. intros Hinv H.
  destruct (heap w !! p) as [r|] eqn:E; cbn [rbind] in H; [|discriminate].
  injection H as <-. cbn [heap set_heap]. apply map_Forall_insert_2; [|exact Hinv].
  destruct (Hinv p r E) as [Hi _]. destruct (lxor_toggle _ Hi) as (H1 & H2 & _).
  split; cbn [buffer_index pending_read set_buffer_index]; [exact H1|].
  intros s Hs. destruct (handle_is_open w (directory r)); [|discriminate].
  injection Hs as <-. symmetry. exact H2.
Qed.

Lemma os_complete_heap_inv (w : Watcher) (p err bytes : Z) (filled : NotifyBuffer) (w' : Watcher) :
  heap_inv w -> os_complete w p err bytes filled = Some w' -> heap_inv w'.
Proof.
  unfold os_complete, heap_inv. intros Hinv H.
  destruct (heap w !! p) as [r|] eqn:E; [|discriminate].
  destruct (pending_read r) as [s|]; [|discriminate].
  injection H as <-. cbn [heap set_heap]. apply map_Forall_insert_2; [|exact Hinv].
  destruct (Hinv p r E) as [Hi _]. split; [exact Hi|]. cbn. discriminate.
Qed.

Lemma completion_enter_heap_inv (w : Watcher) (p err bytes : Z) e (w' : Watcher) :
  heap_inv w -> completion_enter w p err bytes = Ok (e, w') -> heap_inv w'.
Proof.
  unfold completion_enter, load, heap_inv. intros Hinv H.
  destruct (heap w !! p) as [r|]; cbn [rbind] in H; [|discriminate].
  destruct ((err =? ERROR_OPERATION_ABORTED) || should_terminate w).
  - injection H as _ <-. apply map_Forall_delete. exact Hinv.
  - destruct (negb (err =? 0)); cbn in H; [discriminate|]. injection H as _ <-. exact Hinv.
Qed.

Lemma completion_decode_heap_inv (w : Watcher) (p slot : Z) (ov : bool) (w' : Watcher) :
  heap_inv w -> completion_decode w p slot ov = Ok w' -> heap_inv w'.
Proof.
  unfold completion_decode, load. intros Hinv H.
  destruct (heap w !! p); cbn [rbind] in H; [|discriminate].
  destruct (ProcessNotification _ _ _ _); cbn in H; [|discriminate].
  injection H as <-. exact Hinv.
Qed.

Lemma shutdown_close_heap_inv (w : Watcher) (p : Z) (w' : Watcher) :
  heap_inv w -> shutdown_close w p = Ok w' -> heap_inv w'.
Proof.
  unfold shutdown_close, load. intros Hinv H.
  destruct (heap w !! p); cbn [rbind] in H; [|discriminate]. injection H as <-. exact Hinv.
Qed.

Lemma AddDirectory_heap_inv (w : Watcher) (wide_directory : option (list Z))
    (is_recursive : bool) (change_buffer_size memory opened : Z) (b : bool) (w' : Watcher) :
  heap_inv w ->
  AddDirectory w wide_directory is_recursive change_buffer_size memory opened = Ok (b, w') ->
  heap_inv w'.
Proof.
  unfold AddDirectory, heap_inv. intros Hinv H.
  destruct (negb (thread_handle w =? 0) && (change_buffer_size >? 0)); cbn in H; [|discriminate].
  destruct (negb (memory =? 0) && _); cbn in H; [|discriminate].
  assert (Hr : forall rb bs rp rl rc d, rq_inv (mkRequest rb bs rp rl 0 rc d None)).
  { intros. split; [left; reflexivity|]. cbn. discriminate. }
  destruct (negb (opened =? INVALID_HANDLE_VALUE)); injection H as _ <-; cbn.
  - apply map_Forall_insert_2; [apply Hr|]. apply map_Forall_insert_2; [apply Hr|exact Hinv].
  - apply map_Forall_delete. apply map_Forall_insert_2; [apply Hr|exact Hinv].
Qed.

Lemma os_complete_success (w : Watcher) (p bytes : Z) (filled : NotifyBuffer)
    (r : ReadChangesRequest) (s : Z) :
  heap w !! p = Some r -> pending_read r = Some s -> 0 < bytes ->
  os_complete w p 0 bytes filled =
    Some (set_heap w (<[p := mkRequest (fun i => if i =? s then filled else rq_buffers r i)
                               (buffer_size r) (rq_path r) (rq_path_length r)
                               (buffer_index r) (is_recursive r) (directory r) None]>
                        (heap w))).
Proof.
  intros Hr Hs Hb. unfold os_complete. rewrite Hr, Hs.
  rewrite (proj2 (Z.ltb_lt 0 bytes) Hb). reflexivity.
Qed.

(* ------------------------------------------------------------------ *)
(** ** Claims about the worker routines *)

(** C5: buffer toggling.  Every request keeps its buffer index in {0, 1}
    with its one pending read (if any) filling the buffer at the other index,
    through [AddDirectory] and every step of either thread; arming a read
    targets the current index and flips it; and a successful completion of
    the read into slot [s] first re-arms a read, into the slot that is not
    [s], and then decodes the buffer the completed read filled. *)
Theorem buffer_toggling :
  (forall (s : System) (l : Label) (s' : System),
     heap_inv (sys_watcher s) -> sys_step s l = Some s' -> heap_inv (sys_watcher s')) /\
  (forall (w : Watcher) (wide_directory : option (list Z)) (is_recursive : bool)
          (change_buffer_size memory opened : Z) (b : bool) (w' : Watcher),
     heap_inv w ->
     AddDirectory w wide_directory is_recursive change_buffer_size memory opened = Ok (b, w') ->
     heap_inv w') /\
  (forall (w : Watcher) (p : Z) (r : ReadChangesRequest),
     heap w !! p = Some r -> handle_is_open w (directory r) = true ->
     exists w' r', BeginRead w p = Ok w' /\ heap w' !! p = Some r' /\
       pending_read r' = Some (buffer_index r) /\
       buffer_index r' = Z.lxor (buffer_index r) 1) /\
  (forall (w : Watcher) (p : Z) (r : ReadChangesRequest) (s bytes : Z)
          (filled : NotifyBuffer) (w1 : Watcher),
     heap_inv w -> heap w !! p = Some r -> pending_read r = Some s ->
     should_terminate w = false -> 0 < bytes ->
     os_complete w p 0 bytes filled = Some w1 ->
     s <> buffer_index r /\
     exists w2 r2, BeginRead w1 p = Ok w2 /\
       NotificationCompletion w1 p 0 bytes =
         (let! q := ProcessNotification (Some filled) (rq_path r) (rq_path_length r) (queue w1) in
          Ok (set_queue w2 q)) /\
       heap w2 !! p = Some r2 /\ buffer_index r2 = s /\
       pending_read r2 = (if handle_is_open w (directory r) then Some (buffer_index r) else None)).
Proof.
  split; [|split; [|split]].
  - apply (sys_step_pres heap_inv).
    + intros w H. exact H.
    + apply shutdown_close_heap_inv.
    + intros w H. exact H.
    + intros w p rest w' H _ E. unfold ThreadAddDirectoryProc in E.
      eapply BeginRead_heap_inv; [|exact E]. exact H.
    + apply os_complete_heap_inv.
    + apply completion_enter_heap_inv.
    + apply BeginRead_heap_inv.
    + apply completion_decode_heap_inv.
  - intros w wide_directory is_recursive change_buffer_size memory opened b w'.
    apply AddDirectory_heap_inv.
  - intros w p r Hr Ho. unfold BeginRead, load. rewrite Hr. cbn [rbind]. rewrite Ho.
    eexists _, _. split; [reflexivity|]. cbn [heap set_heap].
    split; [apply lookup_insert_eq|]. split; reflexivity.
  - intros w p r s bytes filled w1 Hinv Hr Hs Hst Hb Ec.
    destruct (Hinv p r Hr) as [Hi Hp]. specialize (Hp s Hs).
    destruct (lxor_toggle _ Hi) as (_ & _ & Hne).
    split; [rewrite Hp; exact Hne|].
    rewrite (os_complete_success w p bytes filled r s Hr Hs Hb) in Ec.
    injection Ec as <-.
    set (r1 := mkRequest (fun i => if i =? s then filled else rq_buffers r i)
                 (buffer_size r) (rq_path r) (rq_path_length r)
                 (buffer_index r) (is_recursive r) (directory r) None).
    assert (Hr1 : heap (set_heap w (<[p := r1]> (heap w))) !! p = Some r1)
      by apply lookup_insert_eq.
    rewrite (NotificationCompletion_live _ p bytes r1 Hr1 Hst).
    rewrite (proj2 (Z.eqb_neq bytes 0) ltac:(lia)).
    unfold BeginRead, load. rewrite Hr1. cbn [rbind].
    eexists _, _. split; [reflexivity|].
    cbv zeta. cbn [rq_buffers r1 buffer_index rq_path rq_path_length].
    rewrite <- Hp, Z.eqb_refl.
    split; [reflexivity|]. cbn [heap set_heap].
    split; [apply lookup_insert_eq|]. split; reflexivity.
Qed.

Lemma buffer_toggling_witness :
  0 <> buffer_index sample_request2 /\
  exists w2 r2, BeginRead sample_watcher3 1000 = Ok w2 /\
    NotificationCompletion sample_watcher3 1000 0 64 =
      (let! q := ProcessNotification (Some sample_buffer) (rq_path sample_request2)
                   (rq_path_length sample_request2) (queue sample_watcher3) in
       Ok (set_queue w2 q)) /\
    heap w2 !! 1000 = Some r2 /\ buffer_index r2 = 0 /\
    pending_read r2 = (if handle_is_open sample_watcher2 (directory sample_request2)
                       then Some (buffer_index sample_request2) else None).
Proof.
  assert (H0 : heap_inv sample_watcher0) by apply map_Forall_empty.
  assert (H1 : heap_inv sample_watcher1).
  { apply (AddDirectory_heap_inv sample_watcher0 (Some (wide "C:\data"%string)) true 32768
             1000 55 true sample_watcher1 H0).
    vm_compute. reflexivity. }
  assert (H2 : heap_inv sample_watcher2).
  { apply (BeginRead_heap_inv (set_outstanding (set_apc_queue sample_watcher1 [])
             (outstanding_request_count sample_watcher1 + 1)) 1000 sample_watcher2 H1).
    vm_compute. reflexivity. }
  apply (proj2 (proj2 (proj2 buffer_toggling)) sample_watcher2 1000 sample_request2 0 64
           sample_buffer sample_watcher3 H2);
    [vm_compute; reflexivity|vm_compute; reflexivity|vm_compute; reflexivity|lia|
     vm_compute; reflexivity].
Defined.

(* ------------------------------------------------------------------ *)
(** ** Claims about the facade *)

(** C7: [AddDirectory] returns false only when opening the directory fails
    ([CreateFileW] returning [INVALID_HANDLE_VALUE]); then it frees the
    allocation and leaves the watcher exactly as it found it (no request
    registered, no handle opened, nothing queued), so a later [ShutDown]
    runs on the unchanged watcher.  With the entry checks passing, a failed
    open always gives false. *)
Theorem AddDirectory_open_failure :
  (forall (w : Watcher) (wide_directory : option (list Z)) (is_recursive : bool)
          (change_buffer_size memory opened : Z) (b : bool) (w' : Watcher),
     heap w !! memory = None ->
     AddDirectory w wide_directory is_recursive change_buffer_size memory opened = Ok (b, w') ->
     (b = false <-> opened = INVALID_HANDLE_VALUE) /\
     (b = false -> w' = w /\ ShutDown w' = ShutDown w)) /\
  (forall (w : Watcher) (d : list Z) (is_recursive : bool) (change_buffer_size memory : Z),
     heap w !! memory = None -> thread_handle w <> 0 -> 0 < change_buffer_size ->
     memory <> 0 ->
     AddDirectory w (Some d) is_recursive change_buffer_size memory INVALID_HANDLE_VALUE
       = Ok (false, w)).
Proof.
  assert (Hrestore : forall (w : Watcher) (memory : Z) (r : ReadChangesRequest),
            heap w !! memory = None ->
            set_heap (set_heap w (<[memory := r]> (heap w)))
              (delete memory (<[memory := r]> (heap w))) = w).
  { intros w memory r H. cbn [heap set_heap]. rewrite delete_insert_id by exact H.
    destruct w; reflexivity. }
  split.
  - intros w wide_directory is_recursive change_buffer_size memory opened b w' Hm E.
    unfold AddDirectory in E.
    destruct (negb (thread_handle w =? 0) && (change_buffer_size >? 0)); cbn in E;
      [|discriminate].
    destruct (negb (memory =? 0) && _); cbn in E; [|discriminate].
    destruct (Z.eqb_spec opened INVALID_HANDLE_VALUE) as [Ho|Ho]; cbn in E;
      injection E as <- <-.
    + split; [tauto|]. intros _. rewrite Hrestore by exact Hm. split; reflexivity.
    + split; [split; [discriminate|intros H; contradiction]|discriminate].
  - intros w d is_recursive change_buffer_size memory Hm Ht Hs Hmem.
    unfold AddDirectory.
    rewrite (proj2 (Z.eqb_neq _ _) Ht), (proj2 (Z.gtb_lt _ _) Hs), (proj2 (Z.eqb_neq _ _) Hmem).
    replace (Z.of_nat (length d) + 1 >? 0) with true by (symmetry; apply Z.gtb_lt; lia).
    cbn [negb andb assert rbind]. rewrite Z.eqb_refl. cbn [negb].
    rewrite Hrestore by exact Hm. reflexivity.
Qed.

Lemma AddDirectory_open_failure_witness :
  AddDirectory sample_watcher0 (Some (wide "C:\data"%string)) true 32768 1000
    INVALID_HANDLE_VALUE = Ok (false, sample_watcher0).
Proof.
  apply (proj2 AddDirectory_open_failure); [vm_compute; reflexivity|vm_compute; discriminate|
    lia|lia].
Defined.

(** C8 (amended): the request list is written only on the caller thread.
    [Initialize] empties it and a successful [AddDirectory] appends the new
    request to it before handing the request to the worker thread; no step
    of the worker thread (running the queued [ThreadAddDirectoryProc],
    completions, [NotificationCompletion]), nor [TryGetNextChange] or
    [ShutDown], changes it. *)
Theorem request_list_writers :
  (forall (s : System) (l : Label) (s' : System),
     sys_step s l = Some s' -> requests (sys_watcher s') = requests (sys_watcher s)) /\
  (forall (w : Watcher) (p : Z) (w' : Watcher),
     ThreadAddDirectoryProc w p = Ok w' -> requests w' = requests w) /\
  (forall (w : Watcher) (p err bytes : Z) (w' : Watcher),
     NotificationCompletion w p err bytes = Ok w' -> requests w' = requests w) /\
  (forall (w : Watcher) (c : option FileChange) (w' : Watcher),
     TryGetNextChange w = Ok (c, w') -> requests w' = requests w) /\
  (forall (w w' : Watcher), ShutDown w = Ok w' -> requests w' = requests w) /\
  (forall (w : Watcher) (new_thread : Z), requests (Initialize w new_thread) = []) /\
  (forall (w : Watcher) (wide_directory : option (list Z)) (is_recursive : bool)
          (change_buffer_size memory opened : Z) (b : bool) (w' : Watcher),
     AddDirectory w wide_directory is_recursive change_buffer_size memory opened = Ok (b, w') ->
     requests w' = if b then requests w ++ [memory] else requests w).
Proof.
  split; [|split; [|split; [|split; [|split; [|split]]]]].
  - intros s l s' E.
    apply (sys_step_pres (fun w => requests w = requests (sys_watcher s))) with (s := s) (l := l);
      [ intros w H; exact H
      | intros w p w' H E'; rewrite (shutdown_close_requests _ _ _ E'); exact H
      | intros w H; exact H
      | intros w p rest w' H _ E'; rewrite (ThreadAddDirectoryProc_requests _ _ _ E'); exact H
      | intros w p err bytes filled w1 H E'; rewrite (os_complete_requests _ _ _ _ _ _ E'); exact H
      | intros w p err bytes e w' H E'; rewrite (completion_enter_requests _ _ _ _ _ _ E'); exact H
      | intros w p w' H E'; rewrite (BeginRead_requests _ _ _ E'); exact H
      | intros w p slot ov w' H E'; rewrite (completion_decode_requests _ _ _ _ _ E'); exact H
      | reflexivity
      | exact E ].
  - exact ThreadAddDirectoryProc_requests.
  - exact NotificationCompletion_requests.
  - intros w c w' E. unfold TryGetNextChange in E.
    destruct (Pop (queue w)); cbn [rbind] in E; [|discriminate]. injection E as _ <-. reflexivity.
  - intros w w' E. unfold ShutDown in E.
    destruct (shutdown_loop _ _) as [w1|] eqn:E1; cbn [rbind] in E; [|discriminate].
    injection E as <-. apply shutdown_loop_requests in E1. exact E1.
  - reflexivity.
  - intros w wide_directory is_recursive change_buffer_size memory opened b w' E.
    unfold AddDirectory in E.
    destruct (negb (thread_handle w =? 0) && (change_buffer_size >? 0)); cbn in E;
      [|discriminate].
    destruct (negb (memory =? 0) && _); cbn in E; [|discriminate].
    destruct (negb (opened =? INVALID_HANDLE_VALUE)); injection E as <- <-; reflexivity.
Qed.

Lemma request_list_writers_witness :
  requests (sys_watcher sample_system1) = requests (sys_watcher sample_system0).
Proof.
  apply (proj1 request_list_writers sample_system0 (LComplete 1000 0 64 sample_buffer)).
  vm_compute. reflexivity.
Defined.

(** C8 counterexample: [AddDirectory], called on the caller thread, itself
    appends the new request to the request list. *)
Lemma request_list_caller_append :
  AddDirectory sample_watcher0 (Some (wide "C:\data"%string)) true 32768 1000 55
    = Ok (true, sample_watcher1) /\
  requests sample_watcher0 = [] /\ requests sample_watcher1 = [1000] /\
  apc_queue sample_watcher1 = [1000].
Proof. vm_compute. repeat split; reflexivity. Qed.

(* ------------------------------------------------------------------ *)
(** ** Shutting down against a running worker *)

Lemma sys_run_app (s : System) (l1 l2 : list Label) :
  sys_run s (l1 ++ l2) = match sys_run s l1 with Some s' => sys_run s' l2 | None => None end.
Proof.
  revert s. induction l1 as [|l l1 IH]; intros s; [reflexivity|].
  cbn [app sys_run]. destruct (sys_step s l); [apply IH|reflexivity].
Qed.

Lemma shutdown_loop_run (current : list Z) (s : System) :
  main_pc s = MainShutLoop current -> crashed s = false ->
  Forall (fun p => is_Some (heap (sys_watcher s) !! p)) current ->
  exists s', sys_run s (repeat LMain (length current)) = Some s' /\
    main_pc s' = MainShutLoop [] /\ worker_pc s' = worker_pc s /\ crashed s' = false /\
    heap (sys_watcher s') = heap (sys_watcher s) /\
    queue (sys_watcher s') = queue (sys_watcher s).
Proof.
  revert s. induction current as [|p rest IH]; intros s Hm Hc Hall.
  - exists s. repeat split; assumption.
  - inversion Hall as [|? ? [r Hr] Hrest]; subst.
    cbn [repeat length sys_run].
    unfold sys_step at 1. rewrite Hc, Hm.
    unfold shutdown_close at 1, load at 1. rewrite Hr. cbn [rbind sys_update].
    destruct (IH (mkSystem (set_open_handles (sys_watcher s)
                              (close_handle (open_handles (sys_watcher s)) (directory r)))
                   (MainShutLoop rest) (worker_pc s) (crashed s) (events s ++ []))
                eq_refl Hc Hrest)
      as (s' & E & Hm' & Hw' & Hc' & Hh' & Hq').
    exists s'. rewrite E. repeat split; assumption.
Qed.

(** C3 (code bug): [ShutDown] does not wait for the worker thread.  From any
    state where the caller thread is idle, it runs [ShutDown] to its return,
    destroying the queue, in steps of its own only, the worker thread not
    moving at all: a worker that was about to re-arm and decode a completed
    read is still about to do so when [ShutDown] has returned.  In the run
    below, the worker then decodes that buffer and pushes onto the destroyed
    queue after [ShutDown] returned. *)
Theorem ShutDown_does_not_wait :
  (forall s : System,
     main_pc s = MainIdle -> crashed s = false ->
     Forall (fun p => is_Some (heap (sys_watcher s) !! p)) (requests (sys_watcher s)) ->
     exists s', sys_run s (LMain :: repeat LMain (length (requests (sys_watcher s)))
                           ++ [LMain; LMain]) = Some s' /\
       main_pc s' = MainReturned /\ worker_pc s' = worker_pc s /\
       data_valid (queue (sys_watcher s')) = false) /\
  (exists s', sys_run sample_system0
                [LComplete 1000 0 64 sample_buffer; LMain; LMain; LMain; LMain; LWorker; LWorker]
              = Some s' /\
     events s' = [EvShutDownCalled; EvShutDownReturned; EvDecode 1000] /\ crashed s' = true).
Proof.
  split.
  - intros s Hm Hc Hall. cbn [sys_run]. unfold sys_step at 1. rewrite Hc, Hm.
    cbn [sys_update].
    destruct (shutdown_loop_run (requests (sys_watcher s))
                (mkSystem (shutdown_begin (sys_watcher s))
                   (MainShutLoop (requests (shutdown_begin (sys_watcher s))))
                   (worker_pc s) (crashed s) (events s ++ [EvShutDownCalled]))
                eq_refl Hc Hall)
      as (s1 & E1 & Hm1 & Hw1 & Hc1 & _ & Hq1).
    rewrite sys_run_app. cbn [sys_watcher shutdown_begin set_should_terminate requests] in E1.
    change (requests (shutdown_begin (sys_watcher s))) with (requests (sys_watcher s)).
    rewrite E1. cbn [sys_run]. unfold sys_step. rewrite Hc1, Hm1. cbn. rewrite Hc1. cbn.
    eexists. split; [reflexivity|]. split; [reflexivity|]. split; [exact Hw1|reflexivity].
  - eexists. split; [vm_compute; reflexivity|]. split; reflexivity.
Qed.

Lemma ShutDown_does_not_wait_witness :
  exists s', sys_run sample_system1 [LMain; LMain; LMain; LMain] = Some s' /\
    main_pc s' = MainReturned /\ worker_pc s' = WorkerRearm 1000 0 false /\
    data_valid (queue (sys_watcher s')) = false.
Proof.
  destruct (proj1 ShutDown_does_not_wait sample_system1) as (s' & E & H1 & H2 & H3);
    [vm_compute; reflexivity|vm_compute; reflexivity|
     vm_compute; constructor; [eexists; reflexivity|constructor]|].
  exists s'. split; [exact E|]. split; [exact H1|]. split; [|exact H3].
  rewrite H2. vm_compute. reflexivity.
Defined.

(* ------------------------------------------------------------------ *)
(** ** Further properties of the queue *)

Lemma Push_capacity (q : Queue) (e : FileChange) (q' : Queue) :
  queue_wf q -> Push q e = Ok q' ->
  capacity q' = if count q =? capacity q then capacity q * GrowRate else capacity q.
Proof.
  intros Hwf E. unfold Push in E. destruct (Z.eqb_spec (count q) (capacity q)).
  - destruct (Grow_spec q Hwf) as (q1 & G & _ & Hc & _). rewrite G in E. cbn [rbind] in E.
    destruct (rem_s32 _ _); cbn [rbind] in E; [|discriminate]. injection E as <-.
    cbn [capacity]. unfold GrowRate. lia.
  - cbn [rbind] in E. destruct (rem_s32 _ _); cbn [rbind] in E; [|discriminate].
    injection E as <-. reflexivity.
Qed.

Lemma Pop_capacity (q : Queue) (r : option FileChange) (q' : Queue) :
  queue_wf q -> Pop q = Ok (r, q') -> queue_wf q' /\ capacity q' = capacity q.
Proof.
  intros Hwf E. destruct (Pop_spec q Hwf) as (r1 & q1 & E1 & Hwf1 & Hc1 & _).
  rewrite E1 in E. injection E as _ <-. split; assumption.
Qed.

(** X1: capacity.  [Push] doubles the capacity exactly when the queue is
    full and keeps it otherwise, [Pop] never changes it, so every queue
    reached from [Create] by pushes and pops has capacity [16 * 2 ^ k]. *)
Theorem queue_capacity_growth :
  (forall (q : Queue) (e : FileChange) (q' : Queue),
     queue_wf q -> Push q e = Ok q' ->
     capacity q' = if count q =? capacity q then capacity q * GrowRate else capacity q) /\
  (forall (q : Queue) (r : option FileChange) (q' : Queue),
     queue_wf q -> Pop q = Ok (r, q') -> capacity q' = capacity q) /\
  (forall (ops : list QOp) (popped : list FileChange) (q : Queue),
     run_queue Create ops = Ok (popped, q) ->
     exists k : nat, capacity q = InitialCapacity * GrowRate ^ Z.of_nat k).
Proof.
  split; [exact Push_capacity|]. split; [intros q r q' H E; exact (proj2 (Pop_capacity q r q' H E))|].
  assert (G : forall ops popped q q0 k, queue_wf q0 ->
            capacity q0 = InitialCapacity * GrowRate ^ Z.of_nat k ->
            run_queue q0 ops = Ok (popped, q) ->
            exists k : nat, capacity q = InitialCapacity * GrowRate ^ Z.of_nat k).
  { induction ops as [|[e|] ops IH]; intros popped q q0 k Hwf Hk E; cbn [run_queue] in E.
    - injection E as _ <-. exists k. exact Hk.
    - destruct (Push_spec q0 e Hwf) as (q1 & E1 & Hwf1 & _).
      rewrite E1 in E. cbn [rbind] in E.
      pose proof (Push_capacity q0 e q1 Hwf E1) as Hc.
      destruct (count q0 =? capacity q0).
      + apply (IH popped q q1 (S k) Hwf1); [|exact E].
        rewrite Hc, Hk, Nat2Z.inj_succ, Z.pow_succ_r by lia. lia.
      + exact (IH popped q q1 k Hwf1 ltac:(rewrite Hc; exact Hk) E).
    - destruct (Pop_spec q0 Hwf) as (r & q1 & E1 & _).
      rewrite E1 in E. cbn [rbind fst snd] in E.
      destruct (Pop_capacity q0 r q1 Hwf E1) as [Hwf1 Hc].
      destruct (run_queue q1 ops) as [[p1 qf]|] eqn:E2; cbn [rbind] in E; [|discriminate].
      injection E as _ <-. cbn [snd].
      exact (IH p1 qf q1 k Hwf1 ltac:(rewrite Hc; exact Hk) E2). }
  intros ops popped q E. apply (G ops popped q Create 0%nat Create_wf); [reflexivity|exact E].
Qed.

Lemma queue_capacity_growth_witness :
  exists k : nat,
    capacity (snd (ok_or ([], Create) (run_queue Create (repeat (QPush renamed_to_change) 17))))
      = InitialCapacity * GrowRate ^ Z.of_nat k.
Proof.
  apply (proj2 (proj2 queue_capacity_growth) (repeat (QPush renamed_to_change) 17)
           (fst (ok_or ([], Create) (run_queue Create (repeat (QPush renamed_to_change) 17))))).
  vm_compute. reflexivity.
Defined.

(** X2: destroyed queue.  After [Destroy] the queue is empty: [Pop] reports
    no record and leaves it alone, and [Push] fails the [assert] of [Grow]
    (the storage is freed and the capacity 0). *)
Theorem destroyed_queue (q : Queue) (e : FileChange) :
  contents (Destroy q) = [] /\ Pop (Destroy q) = Ok (None, Destroy q) /\
  Push (Destroy q) e = Abort.
Proof. split; [reflexivity|]. split; reflexivity. Qed.

(** X3: the consumer loop.  Calling [TryGetNextChange] until it returns
    false (with enough iterations) yields the queued records in order and
    leaves the queue either empty or holding one withheld [RenamedFrom]
    record. *)
Theorem drain_queue :
  forall (fuel : nat) (w : Watcher),
    queue_wf (queue w) -> (length (contents (queue w)) < fuel)%nat ->
    exists cs w', drain fuel w = Ok (cs, w') /\ queue_wf (queue w') /\
      cs ++ contents (queue w') = contents (queue w) /\
      (contents (queue w') = [] \/
       exists e, contents (queue w') = [e] /\ action e = RenamedFrom).
Proof.
  induction fuel as [|fuel IH]; intros w Hwf Hlen; [lia|].
  cbn [drain]. unfold TryGetNextChange.
  destruct (Pop_spec (queue w) Hwf) as (r & q1 & E1 & Hwf1 & _ & Hn & Hs).
  destruct (Pop_result_spec (queue w) Hwf) as (r' & q1' & E1' & _ & Hnone & _).
  rewrite E1 in E1'. injection E1' as <- <-. rewrite E1. cbn [rbind fst snd].
  destruct r as [e|].
  - specialize (Hs e eq_refl).
    destruct (IH (set_queue w q1)) as (cs & w' & E & Hwf' & Hc & Hend); cbn [queue set_queue];
      [exact Hwf1|rewrite Hs in Hlen; cbn [length] in Hlen; lia|].
    rewrite E. cbn [rbind fst snd].
    exists (e :: cs), w'. split; [reflexivity|]. split; [exact Hwf'|].
    split; [|exact Hend]. rewrite Hs. cbn [app queue set_queue] in *. rewrite Hc. reflexivity.
  - specialize (Hn eq_refl). subst q1.
    exists [], (set_queue w (queue w)). split; [reflexivity|].
    cbn [queue set_queue]. split; [exact Hwf|]. split; [reflexivity|].
    apply Hnone. reflexivity.
Qed.

Lemma drain_queue_witness :
  exists cs w', drain 3 (set_queue sample_watcher1
                           (ok_or Create (Push Create renamed_to_change))) = Ok (cs, w') /\
    queue_wf (queue w') /\
    cs ++ contents (queue w') = [renamed_to_change] /\
    (contents (queue w') = [] \/
     exists e, contents (queue w') = [e] /\ action e = RenamedFrom).
Proof.
  destruct (Push_spec Create renamed_to_change Create_wf) as (q1 & E1 & Hwf1 & Hc1 & _).
  rewrite E1. cbn [ok_or].
  replace [renamed_to_change] with (contents (queue (set_queue sample_watcher1 q1)))
    by (cbn [queue set_queue]; rewrite Hc1; reflexivity).
  apply (drain_queue 3 (set_queue sample_watcher1 q1)); [exact Hwf1|].
  cbn [queue set_queue]. rewrite Hc1. vm_compute. lia.
Defined.

(* ------------------------------------------------------------------ *)
(** ** The spin lock *)

Lemma lock_step_ok (s : LockState) (t : bool) :
  lock_ok s = true -> lock_ok (lock_step s t) = true.
Proof.
  destruct s as [word pc0 pc1]. unfold lock_ok. cbn [lock lock_pc0 lock_pc1].
  intros H. destruct t, pc0, pc1; cbn in H |- *; try discriminate;
    apply Z.eqb_eq in H; subst word; reflexivity.
Qed.

Lemma lock_run_ok (sched : list bool) (s : LockState) :
  lock_ok s = true -> lock_ok (lock_run s sched) = true.
Proof.
  revert s. induction sched as [|t rest IH]; intros s H; [exact H|].
  cbn [lock_run]. apply IH, lock_step_ok, H.
Qed.

(** X4: the spin lock.  However the two threads interleave, they are never
    both between [Lock] and [Unlock], and a thread spinning in [Lock] gets
    in with its next exchange whenever the other thread is not inside. *)
Theorem spin_lock_mutual_exclusion (sched : list bool) :
  let s := lock_run lock_init sched in
  ~ (lock_pc0 s = Inside /\ lock_pc1 s = Inside) /\
  (lock_pc0 s = Spinning -> lock_pc1 s <> Inside -> lock_pc0 (lock_step s false) = Inside) /\
  (lock_pc1 s = Spinning -> lock_pc0 s <> Inside -> lock_pc1 (lock_step s true) = Inside).
Proof.
  intros s. assert (H : lock_ok s = true) by (apply lock_run_ok; reflexivity).
  clearbody s. destruct s as [word pc0 pc1]. unfold lock_ok in H.
  cbn [lock lock_pc0 lock_pc1] in *.
  destruct pc0, pc1; cbn in H; try discriminate; apply Z.eqb_eq in H; subst word;
    cbn; repeat split; intros; try reflexivity; intuition congruence.
Qed.

Lemma spin_lock_mutual_exclusion_witness :
  let s := lock_run lock_init [false; true] in
  lock_pc1 s = Spinning /\ lock_pc0 s <> Inside /\ lock_pc1 (lock_step s true) = Inside.
Proof.
  intros s. assert (H1 : lock_pc1 s = Spinning) by reflexivity.
  assert (H0 : lock_pc0 s <> Inside) by (unfold s; vm_compute; discriminate).
  split; [exact H1|]. split; [exact H0|].
  exact (proj2 (proj2 (spin_lock_mutual_exclusion [false; true])) H1 H0).
Defined.

(* ------------------------------------------------------------------ *)
(** ** Further properties of the decoder *)

Lemma combine_path_ok (directory_path : list Z) (directory_path_length : Z)
    (event : NotifyEntry) (l : list Z) (k : Z) :
  0 <= FileNameLength event ->
  combine_path directory_path directory_path_length event = Ok (l, k) ->
  (length l <= Z.to_nat k)%nat /\ 1 <= k < MAX_PATH /\
  (Forall utf16_unit directory_path -> Forall utf16_unit (FileName event) ->
   Forall utf16_unit l).
Proof.
  intros Hn E. unfold combine_path, assert in E.
  destruct ((0 <=? directory_path_length) && (directory_path_length <=? MAX_PATH)) eqn:A1;
    cbn [rbind] in E; [|discriminate].
  destruct (1 <=? directory_path_length) eqn:A2; cbn [rbind] in E; [|discriminate].
  apply andb_true_iff in A1 as [A1 A1']. apply Z.leb_le in A1, A1', A2.
  assert (Hd : (length (firstn (Z.to_nat directory_path_length) directory_path)
                <= Z.to_nat directory_path_length)%nat) by (rewrite length_firstn; lia).
  assert (Hdu : Forall utf16_unit directory_path ->
                Forall utf16_unit (firstn (Z.to_nat directory_path_length) directory_path))
    by (intros; apply Forall_take; assumption).
  revert E.
  match goal with |- context [if negb ?c then _ else _] => destruct (negb c) end.
  - destruct (directory_path_length <? MAX_PATH) eqn:A3; cbn [rbind]; [|discriminate].
    apply Z.ltb_lt in A3.
    destruct (directory_path_length + 1 + FileNameLength event / 2 <=? MAX_PATH) eqn:A4;
      cbn [rbind]; [|discriminate].
    destruct (directory_path_length + 1 + FileNameLength event / 2 <? MAX_PATH) eqn:A5;
      cbn [rbind]; [|discriminate].
    apply Z.ltb_lt in A5. intros E. injection E as <- <-.
    assert (0 <= FileNameLength event / 2) by (apply Z.div_pos; lia).
    rewrite !length_app, !length_firstn. cbn [length]. split; [lia|]. split; [lia|].
    intros Hdir Hname. apply Forall_app; split; [apply Forall_app; split|].
    + apply Hdu, Hdir.
    + constructor; [unfold utf16_unit, BACKSLASH; lia|constructor].
    + apply Forall_take, Hname.
  - cbn [rbind]. cbv beta iota zeta.
    destruct (directory_path_length + FileNameLength event / 2 <=? MAX_PATH) eqn:A4;
      cbn [rbind]; [|discriminate].
    destruct (directory_path_length + FileNameLength event / 2 <? MAX_PATH) eqn:A5;
      cbn [rbind]; [|discriminate].
    apply Z.ltb_lt in A5. intros E. injection E as <- <-.
    assert (0 <= FileNameLength event / 2) by (apply Z.div_pos; lia).
    rewrite !length_app, !length_firstn. split; [lia|]. split; [lia|].
    intros Hdir Hname. apply Forall_app; split; [apply Hdu, Hdir|apply Forall_take, Hname].
Qed.

(** X5: terminated paths.  Whatever the entry and the directory (UTF-16 code
    units, a [FileNameLength] that is not negative), a record the decoder
    builds has its NUL terminator inside the 780-byte path array, at index
    [path_length], and [path_length] is at most 777. *)
Theorem decode_entry_terminated (directory_path : list Z) (directory_path_length : Z)
    (event : NotifyEntry) (c : FileChange) :
  Forall utf16_unit directory_path -> Forall utf16_unit (FileName event) ->
  0 <= FileNameLength event ->
  decode_entry directory_path directory_path_length event = Ok c ->
  length (path c) = path_bytes /\ 0 <= path_length c <= 777 /\
  path c !! Z.to_nat (path_length c) = Some 0.
Proof.
  intros Hdir Hname Hn E. unfold decode_entry in E.
  destruct (combine_path directory_path directory_path_length event) as [[l k]|] eqn:Ec;
    cbn [rbind] in E; [|discriminate].
  destruct (combine_path_ok _ _ _ _ _ Hn Ec) as (Hl & Hk & Hu).
  specialize (Hu Hdir Hname). pose proof (utf8_of_utf16_length l Hu) as Hlen.
  unfold WideCharToMultiByte in E.
  rewrite firstn_all2 in E by (rewrite length_app; cbn [length]; lia).
  rewrite utf8_of_utf16_app_nul, length_app in E. cbn [length] in E.
  rewrite (proj2 (Z.leb_le _ _)) in E by (unfold MAX_PATH in *; lia).
  injection E as <-. cbn [path path_length].
  rewrite write_bytes_zero
    by (rewrite length_app; cbn [length]; unfold path_bytes, MAX_PATH in *; lia).
  rewrite !length_app, repeat_length. cbn [length].
  split; [unfold path_bytes, MAX_PATH in *; lia|].
  split; [unfold MAX_PATH in *; lia|].
  rewrite <- app_assoc.
  replace (Z.to_nat (Z.of_nat (length (utf8_of_utf16 l) + 1) - 1))
    with (length (utf8_of_utf16 l) + 0)%nat by lia.
  rewrite lookup_app_r by lia. rewrite Nat.add_comm, Nat.add_sub. reflexivity.
Qed.

Lemma decode_entry_terminated_witness :
  exists c, decode_entry (wide "C:\data"%string) 7 (entry_for (wide "a.txt"%string) 1 0) = Ok c /\
  length (path c) = path_bytes /\ 0 <= path_length c <= 777 /\
  path c !! Z.to_nat (path_length c) = Some 0.
Proof.
  exists (ok_or zero_change (decode_entry (wide "C:\data"%string) 7
                               (entry_for (wide "a.txt"%string) 1 0))).
  assert (E : decode_entry (wide "C:\data"%string) 7 (entry_for (wide "a.txt"%string) 1 0)
              = Ok (ok_or zero_change (decode_entry (wide "C:\data"%string) 7
                                         (entry_for (wide "a.txt"%string) 1 0))))
    by (vm_compute; reflexivity).
  split; [exact E|].
  apply (decode_entry_terminated (wide "C:\data"%string) 7 (entry_for (wide "a.txt"%string) 1 0));
    [vm_compute; repeat constructor; discriminate|vm_compute; repeat constructor; discriminate
    |vm_compute; discriminate|exact E].
Defined.

Lemma decode_loop_entries (fuel : nat) (buffer : NotifyBuffer) (directory_path : list Z)
    (directory_path_length offset : Z) (q q' : Queue) :
  queue_wf q ->
  decode_loop fuel buffer directory_path directory_path_length offset q = Ok q' ->
  exists es cs, notify_entries fuel buffer offset = Ok es /\
    Forall2 (fun e c => decode_entry directory_path directory_path_length e = Ok c) es cs /\
    contents q' = contents q ++ cs /\ queue_wf q'.
Proof.
  revert offset q. induction fuel as [|fuel IH]; intros offset q Hwf E;
    cbn [decode_loop] in E; [discriminate|].
  cbn [notify_entries].
  destruct (read_entry buffer offset) as [event|]; cbn [rbind] in E |- *; [|discriminate].
  destruct (decode_entry directory_path directory_path_length event) as [c|] eqn:Ed;
    cbn [rbind] in E; [|discriminate].
  destruct (Push_spec q c Hwf) as (q1 & Ep & Hwf1 & Hc1 & _).
  rewrite Ep in E. cbn [rbind] in E.
  destruct (NextEntryOffset event =? 0).
  - injection E as <-. exists [event], [c]. split; [reflexivity|].
    split; [constructor; [exact Ed|constructor]|]. split; [exact Hc1|exact Hwf1].
  - destruct (IH _ q1 Hwf1 E) as (es & cs & Ee & Hf & Hc & Hwf').
    rewrite Ee. cbn [rbind]. exists (event :: es), (c :: cs).
    split; [reflexivity|]. split; [constructor; assumption|].
    split; [rewrite Hc, Hc1, <- app_assoc; reflexivity|exact Hwf'].
Qed.

(** X6: decoding a buffer.  When [ProcessNotification] decodes a change
    buffer, it appends one record per entry of the chain that starts at
    offset 0 and follows [NextEntryOffset] up to the first entry whose
    offset is 0, in chain order, each record being the decoding of its
    entry; nothing else is added. *)
Theorem ProcessNotification_entries (buffer : NotifyBuffer) (directory_path : list Z)
    (directory_path_length : Z) (q q' : Queue) :
  queue_wf q ->
  ProcessNotification (Some buffer) directory_path directory_path_length q = Ok q' ->
  exists es cs, notify_entries (decode_fuel buffer) buffer 0 = Ok es /\
    Forall2 (fun e c => decode_entry directory_path directory_path_length e = Ok c) es cs /\
    contents q' = contents q ++ cs /\ queue_wf q'.
Proof.
  intros Hwf E. unfold ProcessNotification in E. exact (decode_loop_entries _ _ _ _ _ _ _ Hwf E).
Qed.

Lemma ProcessNotification_entries_witness :
  exists es cs,
    notify_entries (decode_fuel sample_buffer) sample_buffer 0 = Ok es /\
    Forall2 (fun e c => decode_entry (wide "C:\data"%string) 7 e = Ok c) es cs /\
    contents (ok_or Create (ProcessNotification (Some sample_buffer) (wide "C:\data"%string) 7 Create))
      = contents Create ++ cs /\
    queue_wf (ok_or Create (ProcessNotification (Some sample_buffer) (wide "C:\data"%string) 7 Create)).
Proof.
  apply (ProcessNotification_entries sample_buffer (wide "C:\data"%string) 7 Create); [exact Create_wf|].
  vm_compute. reflexivity.
Defined.

(* ------------------------------------------------------------------ *)
(** ** Further properties of the completion routine *)

(** X7: cancelled completions.  A completion with [ERROR_OPERATION_ABORTED],
    or any completion once [should_terminate] is set, frees the request and
    decrements [outstanding_request_count]; it pushes nothing and re-arms
    nothing, and any later completion for the same request is a use after
    free. *)
Theorem NotificationCompletion_cancelled (w : Watcher) (p err bytes : Z)
    (r : ReadChangesRequest) :
  heap w !! p = Some r -> (err =? ERROR_OPERATION_ABORTED) || should_terminate w = true ->
  exists w', NotificationCompletion w p err bytes = Ok w' /\
    heap w' = delete p (heap w) /\
    outstanding_request_count w' = outstanding_request_count w - 1 /\
    queue w' = queue w /\ requests w' = requests w /\ open_handles w' = open_handles w /\
    apc_queue w' = apc_queue w /\ should_terminate w' = should_terminate w /\
    (forall err' bytes', NotificationCompletion w' p err' bytes' = Abort).
Proof.
  intros Hp Hc. unfold NotificationCompletion, completion_enter, load.
  rewrite Hp, Hc. cbn [rbind].
  eexists. split; [reflexivity|]. cbn [heap queue requests open_handles apc_queue
    should_terminate outstanding_request_count set_heap set_outstanding].
  repeat split. intros err' bytes'. cbn [heap set_heap]. rewrite lookup_delete_eq. reflexivity.
Qed.

Lemma NotificationCompletion_cancelled_witness :
  exists w', NotificationCompletion sample_watcher2 1000 995 0 = Ok w' /\
    heap w' = delete 1000 (heap sample_watcher2) /\
    outstanding_request_count w' = outstanding_request_count sample_watcher2 - 1 /\
    queue w' = queue sample_watcher2 /\ requests w' = requests sample_watcher2 /\
    open_handles w' = open_handles sample_watcher2 /\
    apc_queue w' = apc_queue sample_watcher2 /\
    should_terminate w' = should_terminate sample_watcher2 /\
    (forall err' bytes', NotificationCompletion w' 1000 err' bytes' = Abort).
Proof.
  apply (NotificationCompletion_cancelled sample_watcher2 1000 995 0 sample_request2);
    vm_compute; reflexivity.
Defined.

(** X8: aborting completions.  A completion for a request that has been freed
    reads freed memory, and a completion of a live request with an error
    code other than 0 and [ERROR_OPERATION_ABORTED], while [should_terminate]
    is clear, fails [assert(false)]. *)
Theorem NotificationCompletion_aborts (w : Watcher) (p err bytes : Z) :
  (heap w !! p = None -> NotificationCompletion w p err bytes = Abort) /\
  (forall r, heap w !! p = Some r -> err <> 0 -> err <> ERROR_OPERATION_ABORTED ->
   should_terminate w = false -> NotificationCompletion w p err bytes = Abort).
Proof.
  split.
  - intros Hp. unfold NotificationCompletion, completion_enter, load. rewrite Hp. reflexivity.
  - intros r Hp H0 H995 Ht. unfold NotificationCompletion, completion_enter, load.
    rewrite Hp, Ht, (proj2 (Z.eqb_neq _ _) H995), (proj2 (Z.eqb_neq _ _) H0). reflexivity.
Qed.

Lemma NotificationCompletion_aborts_witness :
  NotificationCompletion sample_watcher2 2000 0 64 = Abort /\
  NotificationCompletion sample_watcher2 1000 5 64 = Abort.
Proof.
  split.
  - apply (proj1 (NotificationCompletion_aborts sample_watcher2 2000 0 64)).
    vm_compute. reflexivity.
  - apply (proj2 (NotificationCompletion_aborts sample_watcher2 1000 5 64) sample_request2);
      [vm_compute; reflexivity|discriminate|discriminate|vm_compute; reflexivity].
Defined.

(* ------------------------------------------------------------------ *)
(** ** Further properties of [AddDirectory] *)

(** X9: the asserts of [AddDirectory].  It fails an [assert] exactly when the
    worker thread handle is 0, the buffer size is not positive, [malloc]
    fails, or the directory does not convert to UTF-16; an empty directory
    string passes. *)
Theorem AddDirectory_asserts (w : Watcher) (wide_directory : option (list Z))
    (is_recursive : bool) (change_buffer_size memory opened : Z) :
  AddDirectory w wide_directory is_recursive change_buffer_size memory opened = Abort <->
  thread_handle w = 0 \/ change_buffer_size <= 0 \/ memory = 0 \/ wide_directory = None.
Proof.
  unfold AddDirectory, assert.
  destruct (Z.eqb_spec (thread_handle w) 0) as [Ht|Ht]; cbn [negb andb rbind];
    [split; [intros _; left; exact Ht|reflexivity]|].
  destruct (Z.gtb_spec change_buffer_size 0) as [Hs|Hs]; cbn [andb rbind];
    [|split; [intros _; right; left; lia|reflexivity]].
  destruct (Z.eqb_spec memory 0) as [Hm|Hm]; cbn [negb andb rbind];
    [split; [intros _; right; right; left; exact Hm|reflexivity]|].
  destruct wide_directory as [d|].
  - rewrite (proj2 (Z.gtb_lt _ _)) by lia. cbn [rbind].
    split; [destruct (negb (opened =? INVALID_HANDLE_VALUE)); discriminate|].
    intros [H|[H|[H|H]]]; [contradiction|lia|contradiction|discriminate].
  - cbn. split; [intros _; right; right; right; reflexivity|reflexivity].
Qed.

Lemma AddDirectory_asserts_witness :
  AddDirectory sample_watcher0 None true 32768 1000 55 = Abort /\
  AddDirectory sample_watcher0 (Some []) true 32768 1000 55 <> Abort.
Proof.
  split.
  - apply (proj2 (AddDirectory_asserts sample_watcher0 None true 32768 1000 55)).
    right; right; right; reflexivity.
  - intros H. apply (proj1 (AddDirectory_asserts sample_watcher0 (Some []) true 32768 1000 55))
      in H.
    destruct H as [H|[H|[H|H]]]; [discriminate H|vm_compute in H; apply H; reflexivity
      |discriminate H|discriminate H].
Defined.

(** X10: registering a directory.  When the handle opens, [AddDirectory]
    returns true, appends the request to the request list and queues one
    APC; once the worker runs that APC, [outstanding_request_count] has
    grown by one and the request, holding the directory path and its length
    in code units, has its first read pending into buffer 0 and its index
    at 1.  The event queue is untouched. *)
Theorem AddDirectory_then_apc (w : Watcher) (d : list Z) (recursive : bool)
    (change_buffer_size memory opened : Z) (m : MainPc) (evs : list Event) :
  thread_handle w <> 0 -> 0 < change_buffer_size -> memory <> 0 ->
  opened <> INVALID_HANDLE_VALUE -> apc_queue w = [] ->
  exists w1 w2,
    AddDirectory w (Some d) recursive change_buffer_size memory opened = Ok (true, w1) /\
    requests w1 = requests w ++ [memory] /\ apc_queue w1 = [memory] /\
    sys_step (mkSystem w1 m WorkerWait false evs) LApc
      = Some (mkSystem w2 m WorkerWait false (evs ++ [])) /\
    outstanding_request_count w2 = outstanding_request_count w + 1 /\
    apc_queue w2 = [] /\ queue w2 = queue w /\ requests w2 = requests w ++ [memory] /\
    heap w2 !! memory = Some (mkRequest (fresh_buffers change_buffer_size) change_buffer_size
                               d (Z.of_nat (length d)) 1 recursive opened (Some 0)).
Proof.
  intros Ht Hs Hm Ho Ha. unfold AddDirectory, assert.
  rewrite (proj2 (Z.eqb_neq _ _) Ht), (proj2 (Z.gtb_lt _ _) Hs), (proj2 (Z.eqb_neq _ _) Hm).
  rewrite (proj2 (Z.gtb_lt _ _)) by lia.
  rewrite (proj2 (Z.eqb_neq _ _) Ho). cbn [negb andb rbind].
  do 2 eexists. split; [reflexivity|].
  cbn [requests apc_queue set_apc_queue set_heap set_open_handles]. rewrite Ha.
  split; [reflexivity|]. split; [reflexivity|].
  split.
  { unfold sys_step. cbn [crashed sys_watcher main_pc worker_pc apc_queue set_apc_queue].
    unfold ThreadAddDirectoryProc, BeginRead, load.
    cbn [app heap queue requests thread_handle should_terminate outstanding_request_count
         open_handles apc_queue set_outstanding set_apc_queue set_heap set_open_handles].
    rewrite lookup_insert_eq. cbn [rbind sys_update]. reflexivity. }
  cbn [outstanding_request_count apc_queue queue requests heap set_heap set_outstanding
       set_apc_queue set_open_handles].
  split; [reflexivity|]. split; [reflexivity|]. split; [reflexivity|].
  split; [reflexivity|].
  rewrite lookup_insert_eq.
  unfold set_buffer_index, handle_is_open. cbn [rq_buffers buffer_size rq_path rq_path_length
    buffer_index is_recursive directory open_handles existsb].
  cbn [open_handles set_outstanding set_apc_queue existsb].
  rewrite Z.eqb_refl. cbn [orb]. do 2 f_equal; lia.
Qed.

Lemma AddDirectory_then_apc_witness :
  exists w1 w2,
    AddDirectory sample_watcher0 (Some (wide "C:\data"%string)) true 32768 1000 55
      = Ok (true, w1) /\
    requests w1 = requests sample_watcher0 ++ [1000] /\ apc_queue w1 = [1000] /\
    sys_step (mkSystem w1 MainIdle WorkerWait false []) LApc
      = Some (mkSystem w2 MainIdle WorkerWait false ([] ++ [])) /\
    outstanding_request_count w2 = outstanding_request_count sample_watcher0 + 1 /\
    apc_queue w2 = [] /\ queue w2 = queue sample_watcher0 /\
    requests w2 = requests sample_watcher0 ++ [1000] /\
    heap w2 !! 1000 = Some (mkRequest (fresh_buffers 32768) 32768 (wide "C:\data"%string)
                              (Z.of_nat (length (wide "C:\data"%string))) 1 true 55 (Some 0)).
Proof.
  apply (AddDirectory_then_apc sample_watcher0 (wide "C:\data"%string) true 32768 1000 55
           MainIdle []); vm_compute; (reflexivity || discriminate).
Defined.

(* ------------------------------------------------------------------ *)
(** ** Further properties of [ShutDown] *)

Lemma In_close_handle (hs : list Z) (h x : Z) :
  In x (close_handle hs h) <-> In x hs /\ x <> h.
Proof.
  induction hs as [|y hs IH]; [cbn; tauto|].
  unfold close_handle in *. rewrite filter_cons.
  destruct (decide _) as [Hy|Hy]; destruct (Z.eqb_spec y h) as [Eh|Eh]; cbn in Hy;
    try contradiction; cbn [In]; rewrite IH; split.
  - intros [<-|[H1 H2]]; [split; [left; reflexivity|exact Eh]|split; [right; exact H1|exact H2]].
  - intros [[<-|H1] H2]; [left; reflexivity|right; split; assumption].
  - intros [H1 H2]. split; [right; exact H1|exact H2].
  - intros [[<-|H1] H2]; [subst; contradiction|split; assumption].
Qed.

Lemma shutdown_loop_ok (w : Watcher) (current : list Z) :
  (forall p, In p current -> heap w !! p <> None) ->
  exists hs, shutdown_loop w current = Ok (set_open_handles w hs) /\
    (forall h, In h hs <-> In h (open_handles w) /\
       forall p r, In p current -> heap w !! p = Some r -> h <> directory r).
Proof.
  revert w. induction current as [|p rest IH]; intros w Hin.
  - exists (open_handles w). split; [destruct w; reflexivity|].
    intros h. split; [intros H; split; [exact H|intros p r []]|intros [H _]; exact H].
  - destruct (heap w !! p) as [r|] eqn:Hp; [|exfalso; exact (Hin p (or_introl eq_refl) Hp)].
    cbn [shutdown_loop]. unfold shutdown_close, load. rewrite Hp. cbn [rbind].
    destruct (IH (set_open_handles w (close_handle (open_handles w) (directory r))))
      as (hs & E & Hhs).
    { intros p' H'. cbn [heap set_open_handles]. apply Hin. right. exact H'. }
    rewrite E. exists hs. split; [reflexivity|].
    intros h. rewrite Hhs. cbn [open_handles heap set_open_handles].
    rewrite In_close_handle. split.
    + intros [[Hh Hne] Hall]. split; [exact Hh|].
      intros p' r' [<-|H'] Hr'; [rewrite Hp in Hr'; injection Hr' as <-; exact Hne|].
      exact (Hall p' r' H' Hr').
    + intros [Hh Hall]. split; [split; [exact Hh|exact (Hall p r (or_introl eq_refl) Hp)]|].
      intros p' r' H' Hr'. exact (Hall p' r' (or_intror H') Hr').
Qed.

Lemma shutdown_loop_freed (w : Watcher) (current : list Z) (p : Z) :
  In p current -> heap w !! p = None -> shutdown_loop w current = Abort.
Proof.
  revert w. induction current as [|p0 rest IH]; intros w Hin Hp; [destruct Hin|].
  cbn [shutdown_loop]. unfold shutdown_close, load.
  destruct Hin as [<-|Hin]; [rewrite Hp; reflexivity|].
  destruct (heap w !! p0) as [r|]; cbn [rbind]; [|reflexivity].
  apply IH; [exact Hin|exact Hp].
Qed.

(** X11: what [ShutDown] does.  It succeeds exactly when every request in the
    list is still allocated (otherwise it reads freed memory).  When it
    succeeds it sets [should_terminate]; of the open directory handles it
    closes exactly those of the listed requests (the thread handle, which
    it also closes, is not part of [open_handles]); it empties the event
    queue so that [TryGetNextChange] reports nothing, and leaves the
    allocations, the request list and [outstanding_request_count] as they
    were. *)
Theorem ShutDown_effects (w : Watcher) :
  (ShutDown w = Abort <-> exists p, In p (requests w) /\ heap w !! p = None) /\
  (forall w', ShutDown w = Ok w' ->
   should_terminate w' = true /\ heap w' = heap w /\ requests w' = requests w /\
   outstanding_request_count w' = outstanding_request_count w /\
   contents (queue w') = [] /\ TryGetNextChange w' = Ok (None, w') /\
   (forall h, In h (open_handles w') <->
      In h (open_handles w) /\
      forall p r, In p (requests w) -> heap w !! p = Some r -> h <> directory r)).
Proof.
  assert (Hcase : (exists p, In p (requests w) /\ heap w !! p = None) \/
                  (forall p, In p (requests w) -> heap w !! p <> None)).
  { induction (requests w) as [|p l IH]; [right; intros p []|].
    destruct (heap w !! p) eqn:Hp.
    - destruct IH as [(p' & H1 & H2)|H]; [left; exists p'; split; [right|]; assumption|].
      right. intros p' [<-|H']; [rewrite Hp; discriminate|exact (H p' H')].
    - left. exists p. split; [left; reflexivity|exact Hp]. }
  unfold ShutDown. destruct Hcase as [(p & Hin & Hp)|Hall].
  - rewrite (shutdown_loop_freed (shutdown_begin w) (requests (shutdown_begin w)) p Hin Hp).
    cbn [rbind]. split; [split; [intros _; exists p; split; assumption|reflexivity]|].
    intros w' E. discriminate E.
  - destruct (shutdown_loop_ok (shutdown_begin w) (requests (shutdown_begin w)) Hall)
      as (hs & E & Hhs).
    rewrite E. cbn [rbind]. split.
    { split; [discriminate|]. intros (p & Hin & Hp). destruct (Hall p Hin Hp). }
    intros w' E'. injection E' as <-.
    cbn [shutdown_end shutdown_begin set_queue set_open_handles set_should_terminate
         should_terminate heap requests outstanding_request_count queue open_handles] in *.
    split; [reflexivity|]. split; [reflexivity|]. split; [reflexivity|].
    split; [reflexivity|]. split; [reflexivity|]. split; [reflexivity|]. exact Hhs.
Qed.

Lemma ShutDown_effects_witness :
  ShutDown sample_watcher2 <> Abort /\
  In 55 (open_handles sample_watcher2) /\
  ~ In 55 (open_handles (ok_or sample_watcher2 (ShutDown sample_watcher2))).
Proof.
  destruct (ShutDown_effects sample_watcher2) as [Hab Hok].
  assert (E : ShutDown sample_watcher2 = Ok (ok_or sample_watcher2 (ShutDown sample_watcher2)))
    by (vm_compute; reflexivity).
  split; [rewrite E; discriminate|]. split; [vm_compute; auto|].
  intros H. destruct (Hok _ E) as (_ & _ & _ & _ & _ & _ & Hh).
  apply Hh in H. destruct H as [_ H].
  apply (H 1000 sample_request2); vm_compute; auto.
Defined.

(** X12: the out-of-bounds terminator of the overflow record.  On a
    well-formed queue, [ProcessNotification] with a null buffer fails
    exactly when the UTF-8 encoding of the directory path is exactly
    [MAX_PATH * 3] = 780 bytes: the conversion then fills the whole path
    array and [change.path[change.path_length] = 0] writes one byte past
    its end.  For every other length the record is pushed. *)
Theorem overflow_out_of_bounds (directory_path : list Z) (directory_path_length : Z)
    (q : Queue) :
  queue_wf q ->
  (ProcessNotification None directory_path directory_path_length q = Abort <->
   Z.of_nat (length (utf8_of_utf16 (firstn (Z.to_nat directory_path_length) directory_path)))
     = MAX_PATH * 3).
Proof.
  intros Hwf. unfold ProcessNotification.
  destruct (Z.lt_total (Z.of_nat (length (utf8_of_utf16
              (firstn (Z.to_nat directory_path_length) directory_path)))) (MAX_PATH * 3))
    as [Hlt|[Heq|Hgt]].
  - destruct (overflow_change_short directory_path directory_path_length Hlt)
      as (c & E & _). rewrite E. cbn [rbind].
    destruct (Push_spec q c Hwf) as (q1 & Ep & _). rewrite Ep.
    split; [discriminate|lia].
  - rewrite (overflow_change_exact _ _ Heq). split; [intros _; exact Heq|reflexivity].
  - destruct (overflow_change_long directory_path directory_path_length Hgt)
      as (c & E & _). rewrite E. cbn [rbind].
    destruct (Push_spec q c Hwf) as (q1 & Ep & _). rewrite Ep.
    split; [discriminate|lia].
Qed.

Lemma overflow_out_of_bounds_witness :
  ProcessNotification None exact_directory 780 Create = Abort /\
  ProcessNotification None long_directory 785 Create <> Abort.
Proof.
  split.
  - apply (proj2 (overflow_out_of_bounds exact_directory 780 Create Create_wf)).
    vm_compute. reflexivity.
  - intros E. apply (proj1 (overflow_out_of_bounds long_directory 785 Create Create_wf)) in E.
    vm_compute in E. discriminate.
Defined.

(* ------------------------------------------------------------------ *)
(** ** The worker thread before [ShutDown] *)

Lemma ThreadAddDirectoryProc_should_terminate (w : Watcher) (p : Z) (w' : Watcher) :
  ThreadAddDirectoryProc w p = Ok w' -> should_terminate w' = should_terminate w.
Proof.
  unfold ThreadAddDirectoryProc, BeginRead, load. intros E. result_cases. reflexivity.
Qed.

Lemma BeginRead_should_terminate (w : Watcher) (p : Z) (w' : Watcher) :
  BeginRead w p = Ok w' -> should_terminate w' = should_terminate w.
Proof. unfold BeginRead, load. intros E. result_cases. reflexivity. Qed.

Lemma os_complete_should_terminate (w : Watcher) (p err bytes : Z) (filled : NotifyBuffer)
    (w' : Watcher) :
  os_complete w p err bytes filled = Some w' -> should_terminate w' = should_terminate w.
Proof. unfold os_complete. intros E. result_cases. reflexivity. Qed.

Lemma completion_enter_should_terminate (w : Watcher) (p err bytes : Z) e (w' : Watcher) :
  completion_enter w p err bytes = Ok (e, w') -> should_terminate w' = should_terminate w.
Proof.
  unfold completion_enter, load. intros E. destruct (heap w !! p); cbn [rbind] in E;
    [|discriminate].
  destruct (_ || _); [injection E as _ <-; reflexivity|].
  destruct (negb (err =? 0)); cbn [assert rbind] in E; [discriminate|].
  injection E as _ <-. reflexivity.
Qed.

Lemma completion_decode_should_terminate (w : Watcher) (p slot : Z) (ov : bool) (w' : Watcher) :
  completion_decode w p slot ov = Ok w' -> should_terminate w' = should_terminate w.
Proof.
  unfold completion_decode, load. intros E.
  destruct (heap w !! p); cbn [rbind] in E; [|discriminate].
  destruct (ProcessNotification _ _ _ _); cbn [rbind] in E; [|discriminate].
  injection E as <-. reflexivity.
Qed.

Lemma idle_step (s : System) (l : Label) (s' : System) :
  idle_inv s -> sys_step s l = Some s' -> idle_inv s'.
Proof.
  intros Hi E. unfold idle_inv in *. unfold sys_step in E. cbv zeta in E.
  destruct (crashed s); [discriminate|].
  destruct (main_pc s) as [|[|p0 rest0]| |] eqn:Hm;
    [destruct (Hi eq_refl) as [Ht Hw]; clear Hi|clear Hi..];
    destruct l as [| | |p err bytes filled];
    destruct (worker_pc s) as [|p1 slot1 ov1|p1 slot1 ov1|];
    try discriminate;
    repeat match goal with
    | E : (if ?b then _ else _) = Some _ |- _ =>
        let Eb := fresh "Eb" in destruct b eqn:Eb; [discriminate|]
    | E : match apc_queue ?w with _ => _ end = Some _ |- _ =>
        destruct (apc_queue w) as [|pa resta] eqn:Ea; [discriminate|]
    | E : match os_complete ?w ?p ?e ?b ?f with _ => _ end = Some _ |- _ =>
        destruct (os_complete w p e b f) as [w1|] eqn:Eo; [|discriminate]
    | E : match completion_enter ?w ?p ?e ?b with _ => _ end = Some _ |- _ =>
        destruct (completion_enter w p e b) as [[[[sl ov]|] w2]|] eqn:Ee
    end;
    injection E as <-; unfold sys_update;
    repeat match goal with
    | |- context [match ?r with Ok _ => _ | Abort => _ end] =>
        let Er := fresh "Er" in destruct r eqn:Er
    end;
    cbn [main_pc worker_pc sys_watcher]; intros Hm'; try discriminate Hm';
    (split; [|try discriminate]);
    repeat first
      [ erewrite ThreadAddDirectoryProc_should_terminate by eassumption
      | erewrite completion_enter_should_terminate by eassumption
      | erewrite os_complete_should_terminate by eassumption
      | erewrite BeginRead_should_terminate by eassumption
      | erewrite completion_decode_should_terminate by eassumption ];
    cbn [should_terminate set_apc_queue]; try exact Ht.
  (* the worker leaves its wait only when [should_terminate] is set *)
  unfold worker_keeps_waiting in Eb. rewrite Ht in Eb. rewrite orb_true_r in Eb. discriminate.
Qed.

(** X13: the worker thread does not exit before [ShutDown].  From a state in
    which [ShutDown] has not started, the termination flag is clear and the
    worker has not exited, every interleaving of the two threads keeps the
    flag clear and the worker running for as long as [ShutDown] has not
    started: nothing but [ShutDown] sets the flag, and [ThreadProc] leaves
    its loop only once the flag is set. *)
Theorem worker_runs_until_shutdown (s : System) (sched : list Label) (s' : System) :
  idle_inv s -> sys_run s sched = Some s' -> idle_inv s'.
Proof.
  revert s. induction sched as [|l rest IH]; intros s Hi E; cbn [sys_run] in E.
  - injection E as <-. exact Hi.
  - destruct (sys_step s l) as [s1|] eqn:E1; [|discriminate].
    exact (IH s1 (idle_step s l s1 Hi E1) E).
Qed.

Lemma worker_runs_until_shutdown_witness :
  exists s', sys_run sample_system0 [LComplete 1000 0 64 sample_buffer; LWorker; LWorker] = Some s' /\
    idle_inv s'.
Proof.
  destruct (sys_run sample_system0 [LComplete 1000 0 64 sample_buffer; LWorker; LWorker])
    as [s'|] eqn:E; [|vm_compute in E; discriminate E].
  exists s'. split; [reflexivity|].
  apply (worker_runs_until_shutdown sample_system0
           [LComplete 1000 0 64 sample_buffer; LWorker; LWorker] s'); [|exact E].
  intros _. vm_compute. split; [reflexivity|discriminate].
Defined.

Lemma keeps_counts_refl (w : Watcher) : keeps_counts w w.
Proof. repeat split. Qed.

Lemma keeps_counts_begin (w : Watcher) : keeps_counts w (shutdown_begin w).
Proof. repeat split. Qed.

Lemma keeps_counts_end (w : Watcher) : keeps_counts w (shutdown_end w).
Proof. repeat split. Qed.

Lemma keeps_counts_close (w : Watcher) (p : Z) (w' : Watcher) :
  shutdown_close w p = Ok w' -> keeps_counts w w'.
Proof. unfold shutdown_close, load. intros E. result_cases. repeat split. Qed.

Lemma keeps_counts_decode (w : Watcher) (p slot : Z) (ov : bool) (w' : Watcher) :
  completion_decode w p slot ov = Ok w' -> keeps_counts w w'.
Proof.
  unfold completion_decode, load. intros E.
  destruct (heap w !! p); cbn [rbind] in E; [|discriminate].
  destruct (ProcessNotification _ _ _ _); cbn [rbind] in E; [|discriminate].
  injection E as <-. repeat split.
Qed.

Lemma sys_count_keep (w w' : Watcher) (wk : WorkerPc) :
  count_inv w -> keeps_counts w w' ->
  (forall p slot ov, wk = WorkerRearm p slot ov -> ~ In p (apc_queue w)) ->
  (wk = WorkerExited -> outstanding_request_count w = 0) ->
  count_inv w' /\
  (forall p slot ov, wk = WorkerRearm p slot ov -> ~ In p (apc_queue w')) /\
  (wk = WorkerExited -> outstanding_request_count w' = 0).
Proof.
  intros (Hs & Hn & Hf) (Hh & Ho & Ha) Hr Hx. unfold count_inv.
  rewrite Hh, Ho, Ha. auto.
Qed.

(** A request whose read is pending is not waiting for its APC. *)
Lemma pending_not_queued (w : Watcher) (p : Z) (r : ReadChangesRequest) (s : Z) :
  count_inv w -> heap w !! p = Some r -> pending_read r = Some s -> ~ In p (apc_queue w).
Proof.
  intros (_ & _ & Hf) Hp Hs Hin. rewrite List.Forall_forall in Hf.
  destruct (Hf p Hin) as (r' & Hp' & Hn). rewrite Hp in Hp'. injection Hp' as <-.
  rewrite Hs in Hn. discriminate.
Qed.

(** Replacing a live request that is not waiting for its APC. *)
Lemma count_inv_replace (w : Watcher) (p : Z) (r r' : ReadChangesRequest) :
  count_inv w -> heap w !! p = Some r -> ~ In p (apc_queue w) ->
  count_inv (set_heap w (<[p := r']> (heap w))).
Proof.
  intros (Hs & Hn & Hf) Hp Hin. unfold count_inv. cbn [heap apc_queue outstanding_request_count set_heap].
  rewrite map_size_insert_Some by (rewrite Hp; eexists; reflexivity).
  split; [exact Hs|]. split; [exact Hn|].
  rewrite List.Forall_forall in *. intros q Hq. rewrite lookup_insert_ne by (intros ->; contradiction).
  exact (Hf q Hq).
Qed.

Lemma ThreadAddDirectoryProc_count (w : Watcher) (p : Z) (rest : list Z) (w' : Watcher) :
  count_inv w -> apc_queue w = p :: rest ->
  ThreadAddDirectoryProc (set_apc_queue w rest) p = Ok w' -> count_inv w'.
Proof.
  intros (Hs & Hn & Hf) Ha E. unfold ThreadAddDirectoryProc, BeginRead, load in E.
  cbn [heap set_outstanding set_apc_queue] in E.
  destruct (heap w !! p) as [r|] eqn:Hp; cbn [rbind] in E; [|discriminate].
  injection E as <-. rewrite Ha in Hs, Hn, Hf. apply NoDup_cons in Hn as [Hp_rest Hn].
  apply Forall_cons in Hf as [_ Hf].
  unfold count_inv. cbn [heap apc_queue outstanding_request_count set_heap set_outstanding
                         set_apc_queue].
  rewrite map_size_insert_Some by (rewrite Hp; eexists; reflexivity).
  split; [cbn [length] in Hs; lia|]. split; [exact Hn|].
  rewrite List.Forall_forall in *. intros q Hq.
  rewrite lookup_insert_ne by (intros ->; apply Hp_rest, list_elem_of_In, Hq).
  exact (Hf q Hq).
Qed.

Lemma os_complete_count (w : Watcher) (p err bytes : Z) (filled : NotifyBuffer) (w1 : Watcher) :
  count_inv w -> os_complete w p err bytes filled = Some w1 ->
  count_inv w1 /\ ~ In p (apc_queue w1) /\ heap w1 !! p <> None /\
  outstanding_request_count w1 = outstanding_request_count w /\ apc_queue w1 = apc_queue w.
Proof.
  intros Hc E. unfold os_complete in E.
  destruct (heap w !! p) as [r|] eqn:Hp; [|discriminate].
  destruct (pending_read r) as [sl|] eqn:Hs; [|discriminate]. injection E as <-.
  pose proof (pending_not_queued w p r sl Hc Hp Hs) as Hin.
  split; [exact (count_inv_replace w p r _ Hc Hp Hin)|].
  cbn [heap apc_queue outstanding_request_count set_heap].
  split; [exact Hin|]. split; [rewrite lookup_insert_eq; discriminate|]. split; reflexivity.
Qed.

Lemma completion_enter_count (w : Watcher) (p err bytes : Z) e (w' : Watcher) :
  count_inv w -> ~ In p (apc_queue w) ->
  completion_enter w p err bytes = Ok (e, w') ->
  count_inv w' /\ apc_queue w' = apc_queue w /\ (e <> None -> w' = w).
Proof.
  intros (Hs & Hn & Hf) Hin E. unfold completion_enter, load in E.
  destruct (heap w !! p) as [r|] eqn:Hp; cbn [rbind] in E; [|discriminate].
  destruct (_ || _).
  - injection E as <- <-. unfold count_inv.
    cbn [heap apc_queue outstanding_request_count set_heap set_outstanding].
    split; [|split; [reflexivity|intros H; contradiction]].
    rewrite map_size_delete_Some by (rewrite Hp; eexists; reflexivity).
    assert (Hpos : (0 < stdpp.base.size (heap w))%nat).
    { destruct (stdpp.base.size (heap w)) eqn:Hz; [|lia].
      apply map_size_empty_iff in Hz. rewrite Hz, lookup_empty in Hp. discriminate. }
    split; [lia|]. split; [exact Hn|].
    rewrite List.Forall_forall in *. intros q Hq. rewrite lookup_delete_ne by (intros ->; contradiction).
    exact (Hf q Hq).
  - destruct (negb (err =? 0)); cbn [assert rbind] in E; [discriminate|].
    injection E as <- <-. split; [split; [exact Hs|split; assumption]|].
    split; reflexivity.
Qed.

Lemma BeginRead_count (w : Watcher) (p : Z) (w' : Watcher) :
  count_inv w -> ~ In p (apc_queue w) -> BeginRead w p = Ok w' -> count_inv w'.
Proof.
  intros Hc Hin E. unfold BeginRead, load in E.
  destruct (heap w !! p) as [r|] eqn:Hp; cbn [rbind] in E; [|discriminate].
  injection E as <-. exact (count_inv_replace w p r _ Hc Hp Hin).
Qed.

Lemma count_step (s : System) (l : Label) (s' : System) :
  sys_count_inv s -> sys_step s l = Some s' -> sys_count_inv s'.
Proof.
  intros (Hc & Hr & Hx) E. unfold sys_step in E. cbv zeta in E.
  destruct (crashed s); [discriminate|].
  destruct l as [| | |p err bytes filled];
    destruct (main_pc s) as [|[|p0 rest0]| |];
    destruct (worker_pc s) as [|p1 slot1 ov1|p1 slot1 ov1|] eqn:Hw;
    try discriminate; try rewrite Hw in Hr; try rewrite Hw in Hx;
    repeat match goal with
    | E : (if ?b then _ else _) = Some _ |- _ =>
        let Eb := fresh "Eb" in destruct b eqn:Eb; [discriminate|]
    | E : match apc_queue ?w with _ => _ end = Some _ |- _ =>
        destruct (apc_queue w) as [|pa resta] eqn:Ea; [discriminate|]
    | E : match os_complete ?w ?p ?e ?b ?f with _ => _ end = Some _ |- _ =>
        destruct (os_complete w p e b f) as [w1|] eqn:Eo; [|discriminate]
    | E : match completion_enter ?w ?p ?e ?b with _ => _ end = Some _ |- _ =>
        destruct (completion_enter w p e b) as [[[[sl ov]|] w2]|] eqn:Ee
    end;
    injection E as <-; unfold sys_update;
    repeat match goal with
    | |- context [match ?r with Ok _ => _ | Abort => _ end] =>
        let Er := fresh "Er" in destruct r eqn:Er
    end;
    unfold sys_count_inv; cbn [sys_watcher worker_pc];
    first
      [ eapply sys_count_keep;
          [ exact Hc
          | solve [eauto using keeps_counts_refl, keeps_counts_begin, keeps_counts_end,
                    keeps_counts_close, keeps_counts_decode]
          | first [exact Hr | intros ? ? ? ?; discriminate]
          | first [exact Hx | intros ?; discriminate] ]
      | idtac ].
  all: first
    [ (* the worker leaves [ThreadProc]: [outstanding_request_count] is 0 *)
      split; [exact Hc|split; [intros; discriminate|intros _]];
      unfold worker_keeps_waiting in Eb; apply orb_false_iff in Eb as [E1 _];
      apply negb_false_iff, Z.eqb_eq in E1; exact E1
    | (* the APC *)
      split; [eapply ThreadAddDirectoryProc_count; eassumption|split; intros; discriminate]
    | (* re-arming the read *)
      split; [eapply BeginRead_count; [exact Hc|exact (Hr _ _ _ eq_refl)|eassumption]
             |split; intros; discriminate]
    | (* a completion *)
      destruct (os_complete_count _ _ _ _ _ _ Hc Eo) as (Hc1 & Hin1 & _);
      destruct (completion_enter_count _ _ _ _ _ _ Hc1 Hin1 Ee) as (Hc2 & Ha2 & _);
      split; [exact Hc2|split; [|intros; discriminate]];
      intros pq sq oq Hq; first [discriminate Hq|injection Hq as <- _ _; rewrite Ha2; exact Hin1] ].
Qed.

Lemma count_run (s : System) (sched : list Label) (s' : System) :
  sys_count_inv s -> sys_run s sched = Some s' -> sys_count_inv s'.
Proof.
  revert s. induction sched as [|l rest IH]; intros s Hi E; cbn [sys_run] in E.
  - injection E as <-. exact Hi.
  - destruct (sys_step s l) as [s1|] eqn:E1; [|discriminate].
    exact (IH s1 (count_step s l s1 Hi E1) E).
Qed.

Lemma AddDirectory_count (w : Watcher) (wide_directory : option (list Z))
    (is_recursive : bool) (change_buffer_size memory opened : Z) (b : bool) (w' : Watcher) :
  count_inv w -> heap w !! memory = None ->
  AddDirectory w wide_directory is_recursive change_buffer_size memory opened = Ok (b, w') ->
  count_inv w'.
Proof.
  intros (Hs & Hn & Hf) Hm E. unfold AddDirectory, assert in E.
  destruct (negb (thread_handle w =? 0) && (change_buffer_size >? 0)); cbn [rbind] in E;
    [|discriminate].
  destruct (negb (memory =? 0) && _); cbn [rbind] in E; [|discriminate].
  destruct (negb (opened =? INVALID_HANDLE_VALUE)); injection E as _ <-.
  - unfold count_inv. cbn [heap apc_queue outstanding_request_count set_heap set_apc_queue
                           set_open_handles].
    rewrite insert_insert_eq, map_size_insert_None by exact Hm.
    rewrite length_app. cbn [length]. split; [lia|].
    assert (Hnot : ~ In memory (apc_queue w)).
    { intros Hin. rewrite List.Forall_forall in Hf. destruct (Hf memory Hin) as (r & Hr & _).
      rewrite Hm in Hr. discriminate. }
    split.
    + apply NoDup_app. split; [exact Hn|]. split; [|apply NoDup_singleton].
      intros x Hx Hx'. apply list_elem_of_singleton in Hx' as ->.
      apply Hnot, list_elem_of_In, Hx.
    + apply Forall_app. split.
      * rewrite List.Forall_forall in *. intros q Hq.
        rewrite lookup_insert_ne by (intros ->; contradiction). exact (Hf q Hq).
      * constructor; [|constructor]. rewrite lookup_insert_eq. eexists. split; reflexivity.
  - unfold count_inv. cbn [heap apc_queue outstanding_request_count set_heap].
    rewrite delete_insert_eq, delete_id by exact Hm. split; [exact Hs|split; assumption].
Qed.

(** X14: request accounting.  Every request [AddDirectory] allocates is either
    counted in [outstanding_request_count] or waiting, once, in the worker's
    APC queue: the number of live allocations is the sum of the two, from
    [Initialize] (on an empty heap), through [AddDirectory] calls (with
    fresh memory from [malloc]) and every interleaving of [ShutDown] with
    the worker thread.  So when the worker thread has exited, the requests
    still allocated are exactly those whose [ThreadAddDirectoryProc] APC
    never ran. *)
Theorem requests_accounted :
  (forall (w : Watcher) (new_thread : Z),
     heap w = empty -> apc_queue w = [] -> count_inv (Initialize w new_thread)) /\
  (forall (w : Watcher) (wide_directory : option (list Z)) (is_recursive : bool)
     (change_buffer_size memory opened : Z) (b : bool) (w' : Watcher),
     count_inv w -> heap w !! memory = None ->
     AddDirectory w wide_directory is_recursive change_buffer_size memory opened = Ok (b, w') ->
     count_inv w') /\
  (forall (w : Watcher) (evs : list Event) (sched : list Label) (s' : System),
     count_inv w -> sys_run (mkSystem w MainIdle WorkerWait false evs) sched = Some s' ->
     count_inv (sys_watcher s') /\
     (worker_pc s' = WorkerExited ->
      stdpp.base.size (heap (sys_watcher s')) = length (apc_queue (sys_watcher s')))).
Proof.
  split.
  { intros w t Hh Ha. unfold count_inv, Initialize. cbn [heap apc_queue outstanding_request_count].
    rewrite Hh, Ha, map_size_empty. split; [reflexivity|]. split; constructor. }
  split; [exact AddDirectory_count|].
  intros w evs sched s' Hc E.
  assert (H0 : sys_count_inv (mkSystem w MainIdle WorkerWait false evs))
    by (split; [exact Hc|split; intros; discriminate]).
  destruct (count_run _ sched s' H0 E) as ((Hs & Hn & Hf) & _ & Hx).
  split; [split; [exact Hs|split; assumption]|].
  intros Hw. specialize (Hx Hw). rewrite Hx in Hs. lia.
Qed.

Lemma requests_accounted_witness :
  exists s', sys_run (mkSystem sample_watcher2 MainIdle WorkerWait false [])
               [LMain; LMain; LMain; LMain; LComplete 1000 995 0 sample_buffer; LWorker]
             = Some s' /\
    worker_pc s' = WorkerExited /\
    stdpp.base.size (heap (sys_watcher s')) = length (apc_queue (sys_watcher s')).
Proof.
  destruct (sys_run (mkSystem sample_watcher2 MainIdle WorkerWait false [])
              [LMain; LMain; LMain; LMain; LComplete 1000 995 0 sample_buffer; LWorker])
    as [s'|] eqn:E; [|vm_compute in E; discriminate E].
  assert (Hc : count_inv sample_watcher2)
    by (vm_compute; split; [reflexivity|split; constructor]).
  assert (Hw : worker_pc s' = WorkerExited) by (vm_compute in E; injection E as <-; reflexivity).
  exists s'. split; [reflexivity|]. split; [exact Hw|].
  exact (proj2 (proj2 (proj2 requests_accounted) sample_watcher2 [] _ s' Hc E) Hw).
Defined.
